(** * The XML configuration backend of beego (core/config/xml/xml.go)

    A shallow embedding of the [xml] configuration provider and the
    statements that its description makes about it.

    Go values of type [interface{}] that can sit in a parsed document are
    modelled by [value]; Go maps are reference objects, so every
    [map[string]interface{}] lives in a [store] and is named by a location.
    A [ConfigContainer] holds the location of the map it works on, which is
    how two containers come to share one mapping after [Sub].

    The mutex embedded in [ConfigContainer] is taken and released inside
    [Set] only; the embedding is sequential and leaves it out.  [GetSection],
    [Unmarshaler] and [OnChange], about which nothing is stated below, are
    left out as well. *)

From Stdlib Require Import ZArith String Ascii List Lia.
From stdpp Require Import base option gmap strings list fin_maps.

Local Open Scope string_scope.

(** ** Data model *)

(** Locations of Go map objects. *)
Abbreviation loc := positive (only parsing).

(** The dynamic types a value of the document tree can have: [x2j.DocToMap]
    (called without its recast flag) yields strings, nested maps and, for a
    repeated element, slices; the nil interface is the zero value that a map
    read of an absent key produces. *)
#[warnings="-register-all"]
Inductive value : Type :=
| VNil
| VString (s : string)
| VMap (l : loc)
| VSlice (vs : list value).

Inductive gotype : Type := TNil | TString | TMap | TSlice.

Definition dyntype (v : value) : gotype :=
  match v with
  | VNil => TNil
  | VString _ => TString
  | VMap _ => TMap
  | VSlice _ => TSlice
  end.

(** [strconv.NumError.Err] *)
Inductive numErr : Type :=
| ErrSyntax                 (* invalid syntax *)
| ErrRange                  (* value out of range *)
| ErrBitSize (bitSize : Z). (* invalid bit size <bitSize> *)

(** The errors the package and its collaborators hand back.  Each
    constructor stands for one error value of the source; the comment gives
    the message. *)
Inductive error : Type :=
| NumError (Func Num : string) (Err : numErr)
    (* strconv.<Func>: parsing <Num>: <Err> *)
| ErrNoConfigTag
    (* xml parse should include in <config></config> tags *)
| ErrNoSubTags
    (* xml parse <config></config> tags should include sub tags *)
| ErrKeyNotFound (key : string)
    (* the key is not found: <key> *)
| ErrNotStructure (key : string)
    (* the value of this key is not a structure: <key> *)
| ErrNotExistKey (key : string)
    (* not exist key: <key> *)
| ErrParseBool (v : value)
    (* parsing <v>: invalid syntax *)
| ErrDIYNotExist
    (* not exist key *)
| ErrUnsupportedType (typ : string)
    (* xml: unsupported type: <typ> *)
| ErrExternal (msg : string).
    (* an error of a collaborator: x2j, the operating system *)

(** A run-time panic of the Go program. *)
Inductive panic : Type :=
| InterfaceConversion (have want : gotype).
    (* interface conversion: interface {} is <have>, not <want> *)

(** What a call yields: its results, or a panic that unwinds the caller. *)
Inductive outcome (A : Type) : Type :=
| Returns (a : A)
| Panics (p : panic).
Arguments Returns {A} a.
Arguments Panics {A} p.

Definition obind {A B} (m : outcome A) (k : A -> outcome B) : outcome B :=
  match m with
  | Returns a => k a
  | Panics p => Panics p
  end.

Notation "'call' p ':=' m 'in' k" := (obind m (fun p => k))
  (at level 10, p pattern, m at level 100, k at level 200).

(** A Go map from string to [interface{}], and the heap of such maps. *)
Abbreviation gomap := (gmap string value) (only parsing).
Abbreviation store := (gmap positive (gmap string value)) (only parsing).

(** The map object at a location.  Every map the package touches was made by
    [make] or came out of the parser, so the embedding has no nil map: a
    location without an entry reads as the empty map. *)
Definition deref (σ : store) (l : loc) : gomap := default ∅ (σ !! l).

(** The same for a map variable that may hold nil, as a result of a
    collaborator can: reading a nil map finds no key. *)
Definition deref_nilable (σ : store) (m : option loc) : gomap :=
  match m with
  | Some l => deref σ l
  | None => ∅
  end.

(** [m[key]] in its one-result form: the zero value when [key] is absent. *)
Definition index (m : gomap) (key : string) : value := default VNil (m !! key).

(** [make(map[string]interface{})] *)
Definition make_map (σ : store) : store * loc :=
  let l := fresh (dom σ) in (<[l := ∅]> σ, l).

(** [type ConfigContainer struct { data map[string]interface{}; sync.Mutex }] *)
Record ConfigContainer : Type := mkContainer { data : loc }.

(** ** Collaborators outside the package *)

(** Modelled from the spec: [config.ParseBool] of core/config, which is not
    among the sources.  The description gives it as a permissive
    boolean-token parser that accepts the spellings "1", "t", "T", "TRUE",
    "true", "True" as true and "0", "f", "F", "FALSE", "false", "False" as
    false, and fails with a type error on anything that does not parse. *)
Definition truthy : list string := ["1"; "t"; "T"; "TRUE"; "true"; "True"].
Definition falsy : list string := ["0"; "f"; "F"; "FALSE"; "false"; "False"].

Definition ParseBool (val : value) : bool * option error :=
  match val with
  | VString v =>
      if bool_decide (v ∈ truthy) then (true, None)
      else if bool_decide (v ∈ falsy) then (false, None)
      else (false, Some (ErrParseBool val))
  | _ => (false, Some (ErrParseBool val))
  end.

(** What the package takes from libraries whose code decides nothing here:
    [strconv.ParseFloat] over an abstract type of 64-bit floats, the
    XML-to-map conversion [x2j.DocToMap], which builds its maps in the store,
    and [config.ExpandValueEnvForMap], which rewrites a map of the store and
    hands a map back. *)
Class Collaborators : Type := {
  float64 : Type;
  ParseFloat : string -> Z -> float64 * option error;
  DocToMap : string -> store -> store * (option loc * option error);
  ExpandValueEnvForMap : loc -> store -> store * loc
}.

(** The operating system as [SaveConfigFile] and [Parse] see it.  A call
    gives the file system after it and the results of the Go function;
    [os.OpenFile] gives either the open file or the error, and
    [file_Write] and [file_Close] are the methods of [*os.File]. *)
Class OS : Type := {
  filesystem : Type;
  File : Type;
  ReadFile : string -> filesystem -> filesystem * (string * option error);
  OpenFile : string -> Z -> Z -> filesystem -> filesystem * (File + error);
  file_Write : File -> string -> filesystem -> filesystem * (Z * option error);
  file_Close : File -> filesystem -> filesystem * option error
}.

Definition O_RDWR : Z := 2.
Definition O_CREATE : Z := 64.
Definition O_NOFOLLOW : Z := 131072.

(** ** strconv: the integer parsers, at base 10

    [Int] and [Int64] reach [strconv.Atoi] and [strconv.ParseInt(s, 10, 64)];
    the base is 10 at every call, so the parsers are given at that base.
    Machine integers are [Z] with the wrap-around written out. *)
Module strconv.

Local Open Scope Z_scope.

(** [strconv.IntSize], the width of [int]: 64 on the 64-bit targets. *)
Definition intSize : Z := 64.

Definition maxUint64 : Z := 2 ^ 64 - 1.

Definition to_uint64 (z : Z) : Z := z mod 2 ^ 64.
Definition to_int64 (z : Z) : Z := (z + 2 ^ 63) mod 2 ^ 64 - 2 ^ 63.
Definition to_byte (z : Z) : Z := z mod 2 ^ 8.
(** [int(x)]: [int] is [intSize] bits wide. *)
Definition to_int (z : Z) : Z :=
  (z + 2 ^ (intSize - 1)) mod 2 ^ intSize - 2 ^ (intSize - 1).

(** The bytes of a string, [[]byte(s)]. *)
Definition bytes (s : string) : list Z :=
  map (fun c => Z.of_N (N_of_ascii c)) (list_ascii_of_string s).

Definition len (s : string) : Z := Z.of_nat (String.length s).

Definition syntaxError (fn str : string) : error := NumError fn str ErrSyntax.
Definition rangeError (fn str : string) : error := NumError fn str ErrRange.
Definition bitSizeError (fn str : string) (bitSize : Z) : error :=
  NumError fn str (ErrBitSize bitSize).

(** [func lower(c byte) byte { return c | ('x' - 'X') }] *)
Definition lower (c : Z) : Z := Z.lor c (120 - 88).

(** The digit loop of [ParseUint] for [base = 10], where [base0] is false
    and the underscore case of the switch cannot fire. *)
Fixpoint ParseUint_loop (s0 : string) (cutoff maxVal : Z) (cs : list Z) (n : Z)
  : Z * option error :=
  match cs with
  | [] => (n, None)
  | c :: cs' =>
      let d :=
        if (48 <=? c) && (c <=? 57) then Some (to_byte (c - 48))
        else if (97 <=? lower c) && (lower c <=? 122)
             then Some (to_byte (lower c - 97 + 10))
             else None in
      match d with
      | None => (0, Some (syntaxError "ParseUint" s0))
      | Some d =>
          if d >=? to_byte 10 then (0, Some (syntaxError "ParseUint" s0))
          else if n >=? cutoff then (maxVal, Some (rangeError "ParseUint" s0))
          else
            let n := to_uint64 (n * 10) in
            let n1 := to_uint64 (n + d) in
            if (n1 <? n) || (n1 >? maxVal)
            then (maxVal, Some (rangeError "ParseUint" s0))
            else ParseUint_loop s0 cutoff maxVal cs' n1
      end
  end.

(** [strconv.ParseUint(s, 10, bitSize)] *)
Definition ParseUint (s : string) (bitSize : Z) : Z * option error :=
  if decide (s = "") then (0, Some (syntaxError "ParseUint" s))
  else
    let s0 := s in
    let bitSize' := if bitSize =? 0 then Some intSize
                    else if (bitSize <? 0) || (bitSize >? 64) then None
                    else Some bitSize in
    match bitSize' with
    | None => (0, Some (bitSizeError "ParseUint" s0 bitSize))
    | Some bitSize =>
        let cutoff := maxUint64 / 10 + 1 in
        let maxVal := to_uint64 (to_uint64 (Z.shiftl 1 bitSize) - 1) in
        ParseUint_loop s0 cutoff maxVal (bytes s) 0
    end.

(** [strconv.ParseInt(s, 10, bitSize)] *)
Definition ParseInt (s : string) (bitSize : Z) : Z * option error :=
  match s with
  | "" => (0, Some (syntaxError "ParseInt" s))
  | String c rest =>
      let s0 := s in
      let '(neg, s) :=
        if Ascii.eqb c "+" then (false, rest)
        else if Ascii.eqb c "-" then (true, rest)
        else (false, s) in
      let '(un, err) := ParseUint s bitSize in
      match err with
      | Some (NumError _ _ ErrRange) | None =>
          let bitSize := if bitSize =? 0 then intSize else bitSize in
          let cutoff := to_uint64 (Z.shiftl 1 (bitSize - 1)) in
          if negb neg && (un >=? cutoff)
          then (to_int64 (cutoff - 1), Some (rangeError "ParseInt" s0))
          else if neg && (un >? cutoff)
          then (to_int64 (- to_int64 cutoff), Some (rangeError "ParseInt" s0))
          else
            let n := to_int64 un in
            let n := if neg then to_int64 (- n) else n in
            (n, None)
      | Some (NumError _ _ e) => (0, Some (NumError "ParseInt" s0 e))
      | Some e => (0, Some e)
      end
  end.

(** The digit loop of the fast path of [Atoi]. *)
Fixpoint Atoi_loop (s0 : string) (cs : list Z) (n : Z) : Z * option error :=
  match cs with
  | [] => (n, None)
  | ch :: cs' =>
      let ch := to_byte (ch - 48) in
      if ch >? 9 then (0, Some (syntaxError "Atoi" s0))
      else Atoi_loop s0 cs' (to_int (n * 10 + ch))
  end.

(** [strconv.Atoi(s)] *)
Definition Atoi (s : string) : Z * option error :=
  let sLen := len s in
  if ((intSize =? 32) && ((0 <? sLen) && (sLen <? 10)))
     || ((intSize =? 64) && ((0 <? sLen) && (sLen <? 19)))
  then
    (* Fast path for small integers that fit int type. *)
    let s0 := s in
    match s with
    | "" => (0, Some (syntaxError "Atoi" s0))
    | String c rest =>
        let s := if Ascii.eqb c "-" || Ascii.eqb c "+" then rest else s in
        if (Ascii.eqb c "-" || Ascii.eqb c "+") && (len s <? 1)
        then (0, Some (syntaxError "Atoi" s0))
        else
          match Atoi_loop s0 (bytes s) 0 with
          | (n, None) => ((if Ascii.eqb c "-" then to_int (- n) else n), None)
          | r => r
          end
    end
  else
    (* Slow path for invalid, big, or underscored integers. *)
    let '(i64, err) := ParseInt s 0 in
    let err := match err with
               | Some (NumError _ num e) => Some (NumError "Atoi" num e)
               | e => e
               end in
    (to_int i64, err).

End strconv.

(** ** strings: [Split] at a separator that is not empty

    [Strings] calls [strings.Split(v, ";")].  A slice of strings is a list,
    and a slice variable that may be nil is an [option] of a list. *)
Module strings.

Local Open Scope Z_scope.

(** [s[i:]] and [s[:j]] for indices within the string. *)
Definition slice_from (s : string) (i : Z) : string :=
  String.substring (Z.to_nat i) (String.length s - Z.to_nat i) s.
Definition slice_to (s : string) (j : Z) : string :=
  String.substring 0 (Z.to_nat j) s.

(** [strings.Index(s, substr)]: the first place where [substr] starts in
    [s], or -1. *)
Fixpoint Index (s substr : string) : Z :=
  if String.prefix substr s then 0
  else match s with
       | "" => -1
       | String _ s' =>
           let i := Index s' substr in
           if i <? 0 then -1 else i + 1
       end.

(** The loop of [strings.Count] for a [substr] that is not empty; each turn
    drops at least one byte, so the length of [s] bounds the turns. *)
Fixpoint Count_loop (turns : nat) (s substr : string) (n : Z) : Z :=
  match turns with
  | O => n
  | S turns' =>
      let i := Index s substr in
      if i =? -1 then n
      else Count_loop turns' (slice_from s (i + strconv.len substr)) substr (n + 1)
  end.

Definition Count (s substr : string) : Z :=
  Count_loop (String.length s) s substr 0.

(** The loop [for i < n] of [genSplit], with [left] the turns that remain. *)
Fixpoint genSplit_loop (left : nat) (s sep : string) (sepSave : Z) : list string :=
  match left with
  | O => [s]
  | S left' =>
      let m := Index s sep in
      if m <? 0 then [s]
      else slice_to s (m + sepSave)
             :: genSplit_loop left' (slice_from s (m + strconv.len sep)) sep sepSave
  end.

(** [strings.genSplit(s, sep, sepSave, n)] for [sep] not empty.  With an
    empty separator Go takes another road (one piece per UTF-8 sequence),
    which the package never takes; the model then leaves the string whole. *)
Definition genSplit (s sep : string) (sepSave n : Z) : option (list string) :=
  if n =? 0 then None
  else if decide (sep = "") then Some [s]
  else
    let n := if n <? 0 then Count s sep + 1 else n in
    let n := if n >? strconv.len s + 1 then strconv.len s + 1 else n in
    Some (genSplit_loop (Z.to_nat (n - 1)) s sep sepSave).

(** [strings.Split(s, sep)] *)
Definition Split (s sep : string) : option (list string) := genSplit s sep 0 (-1).

End strings.

(** ** encoding/xml

    [xml.MarshalIndent] at a value whose dynamic type is
    [map[string]interface{}].  The encoder names the element after the Go
    type of the value; a map type has no name, and the encoder gives up with
    [UnsupportedTypeError] (the package documents that Marshal returns an
    error if asked to marshal a channel, function, or map).  On an error
    [MarshalIndent] returns no bytes. *)
Definition MarshalIndent_map (σ : store) (v : loc) (prefix indent : string)
  : option string * option error :=
  (None, Some (ErrUnsupportedType "map[string]interface {}")).

(** ** The package

    A method takes the store (and the file system where it does I/O) and
    gives back the store after the call with its Go results.  A pair
    [(v, err)] is a Go result list ending in an [error]; [None] is nil. *)
Section Package.
Context `{Collaborators} `{OS}.

(** [func (xc *Config) ParseData(data []byte) (config.Configer, error)] *)
Definition ParseData (bytes : string) (σ : store)
  : store * (option ConfigContainer * option error) :=
  let '(σ, x_data) := make_map σ in
  let '(σ, (d, err)) := DocToMap bytes σ in
  match err with
  | Some err => (σ, (None, Some err))
  | None =>
      let v := index (deref_nilable σ d) "config" in
      match v with
      | VNil => (σ, (None, Some ErrNoConfigTag))
      | VMap confVal =>
          let '(σ, m) := ExpandValueEnvForMap confVal σ in
          (σ, (Some (mkContainer m), None))
      | _ => (σ, (None, Some ErrNoSubTags))
      end
  end.

(** [func (xc *Config) Parse(filename string) (config.Configer, error)] *)
Definition Parse (filename : string) (fs : filesystem) (σ : store)
  : filesystem * store * (option ConfigContainer * option error) :=
  let '(fs, (context, err)) := ReadFile filename fs in
  match err with
  | Some err => (fs, σ, (None, Some err))
  | None => let '(σ, r) := ParseData context σ in (fs, σ, r)
  end.

(** [func (c *ConfigContainer) sub(key string) (map[string]interface{}, error)] *)
Definition sub (σ : store) (c : ConfigContainer) (key : string)
  : option loc * option error :=
  if decide (key = "") then (Some (data c), None)
  else
    match deref σ (data c) !! key with
    | None => (None, Some (ErrKeyNotFound key))
    | Some (VMap res) => (Some res, None)
    | Some _ => (None, Some (ErrNotStructure key))
    end.

(** [func (c *ConfigContainer) Sub(key string) (config.Configer, error)] *)
Definition Sub (σ : store) (c : ConfigContainer) (key : string)
  : option ConfigContainer * option error :=
  match sub σ c key with
  | (Some m, None) => (Some (mkContainer m), None)
  | (_, Some err) => (None, Some err)
  | (None, None) => (None, None)
  end.

(** [func (c *ConfigContainer) Bool(key string) (bool, error)] *)
Definition Bool (σ : store) (c : ConfigContainer) (key : string)
  : bool * option error :=
  match index (deref σ (data c)) key with
  | VNil => (false, Some (ErrNotExistKey key))
  | v => ParseBool v
  end.

(** [func (c *ConfigContainer) DefaultBool(key string, defaultVal bool) bool] *)
Definition DefaultBool (σ : store) (c : ConfigContainer) (key : string)
    (defaultVal : bool) : bool :=
  let '(v, err) := Bool σ c key in
  match err with
  | Some _ => defaultVal
  | None => v
  end.

(** The type assertion [x.(string)] in its one-result form, which panics
    when the dynamic type of [x] is not [string]. *)
Definition assert_string (x : value) : outcome string :=
  match x with
  | VString s => Returns s
  | _ => Panics (InterfaceConversion (dyntype x) TString)
  end.

(** [func (c *ConfigContainer) Int(key string) (int, error)] *)
Definition Int (σ : store) (c : ConfigContainer) (key : string)
  : outcome (Z * option error) :=
  call s := assert_string (index (deref σ (data c)) key) in
  Returns (strconv.Atoi s).

(** [func (c *ConfigContainer) DefaultInt(key string, defaultVal int) int] *)
Definition DefaultInt (σ : store) (c : ConfigContainer) (key : string)
    (defaultVal : Z) : outcome Z :=
  call (v, err) := Int σ c key in
  match err with
  | Some _ => Returns defaultVal
  | None => Returns v
  end.

(** [func (c *ConfigContainer) Int64(key string) (int64, error)] *)
Definition Int64 (σ : store) (c : ConfigContainer) (key : string)
  : outcome (Z * option error) :=
  call s := assert_string (index (deref σ (data c)) key) in
  Returns (strconv.ParseInt s 64).

(** [func (c *ConfigContainer) DefaultInt64(key string, defaultVal int64) int64] *)
Definition DefaultInt64 (σ : store) (c : ConfigContainer) (key : string)
    (defaultVal : Z) : outcome Z :=
  call (v, err) := Int64 σ c key in
  match err with
  | Some _ => Returns defaultVal
  | None => Returns v
  end.

(** [func (c *ConfigContainer) Float(key string) (float64, error)] *)
Definition Float (σ : store) (c : ConfigContainer) (key : string)
  : outcome (float64 * option error) :=
  call s := assert_string (index (deref σ (data c)) key) in
  Returns (ParseFloat s 64).

(** [func (c *ConfigContainer) DefaultFloat(key string, defaultVal float64) float64] *)
Definition DefaultFloat (σ : store) (c : ConfigContainer) (key : string)
    (defaultVal : float64) : outcome float64 :=
  call (v, err) := Float σ c key in
  match err with
  | Some _ => Returns defaultVal
  | None => Returns v
  end.

(** [func (c *ConfigContainer) String(key string) (string, error)] *)
Definition String (σ : store) (c : ConfigContainer) (key : string)
  : string * option error :=
  match index (deref σ (data c)) key with
  | VString v => (v, None)
  | _ => ("", None)
  end.

(** [func (c *ConfigContainer) DefaultString(key string, defaultVal string) string] *)
Definition DefaultString (σ : store) (c : ConfigContainer) (key : string)
    (defaultVal : string) : string :=
  let '(v, err) := String σ c key in
  if bool_decide (v = "") || bool_decide (err ≠ None) then defaultVal else v.

(** [func (c *ConfigContainer) Strings(key string) ([]string, error)] *)
Definition Strings (σ : store) (c : ConfigContainer) (key : string)
  : option (list string) * option error :=
  let '(v, err) := String σ c key in
  if bool_decide (v = "") || bool_decide (err ≠ None) then (None, err)
  else (strings.Split v ";", None).

(** [func (c *ConfigContainer) DefaultStrings(key string, defaultVal []string) []string] *)
Definition DefaultStrings (σ : store) (c : ConfigContainer) (key : string)
    (defaultVal : option (list string)) : option (list string) :=
  let '(v, err) := Strings σ c key in
  if bool_decide (v = None) || bool_decide (err ≠ None) then defaultVal else v.

(** [func (c *ConfigContainer) SaveConfigFile(filename string) (err error)];
    the deferred [f.Close()] runs on every path after the open, and its
    result is dropped. *)
Definition SaveConfigFile (σ : store) (c : ConfigContainer) (filename : string)
    (fs : filesystem) : filesystem * option error :=
  match OpenFile filename (Z.lor (Z.lor O_RDWR O_CREATE) O_NOFOLLOW) 384 (* 0600 *) fs with
  | (fs, inr err) => (fs, Some err)
  | (fs, inl f) =>
      let '(b, err) := MarshalIndent_map σ (data c) "  " "    " in
      match err with
      | Some err => (fst (file_Close f fs), Some err)
      | None =>
          let '(fs, (_, err)) := file_Write f (default "" b) fs in
          (fst (file_Close f fs), err)
      end
  end.

(** [func (c *ConfigContainer) Set(key, val string) error]; [Set] is a
    reserved word here, hence the underscore. *)
Definition Set_ (σ : store) (c : ConfigContainer) (key val : string)
  : store * option error :=
  (<[data c := <[key := VString val]> (deref σ (data c))]> σ, None).

(** [func (c *ConfigContainer) DIY(key string) (v interface{}, err error)] *)
Definition DIY (σ : store) (c : ConfigContainer) (key : string)
  : value * option error :=
  match deref σ (data c) !! key with
  | Some v => (v, None)
  | None => (VNil, Some ErrDIYNotExist)
  end.

End Package.

(** ** Decimal spellings

    Following the words of the description: the base-10 decimal spelling of
    an integer is an optional sign and then one decimal digit or more, and
    it spells the integer that the digits denote, negated under a minus. *)
Module Decimal.

Local Open Scope Z_scope.

Fixpoint digits_value (cs : list Z) (acc : Z) : option Z :=
  match cs with
  | [] => Some acc
  | c :: cs' =>
      if (48 <=? c) && (c <=? 57)
      then digits_value cs' (acc * 10 + (c - 48))
      else None
  end.

Definition decimal_value (s : string) : option Z :=
  match s with
  | "" => None
  | String.String c rest =>
      if Ascii.eqb c "+"
      then (if decide (rest = "") then None
            else digits_value (strconv.bytes rest) 0)
      else if Ascii.eqb c "-"
      then (if decide (rest = "") then None
            else Z.opp <$> digits_value (strconv.bytes rest) 0)
      else digits_value (strconv.bytes s) 0
  end.

(** The values of Go's [int64], which are those of [int] where
    [strconv.intSize] is 64. *)
Definition in_int64 (n : Z) : Prop := - 2 ^ 63 <= n < 2 ^ 63.


(** What [strconv.ParseInt] and [strconv.Atoi], named [fn] in their errors,
    are to make of a string: the integer it spells when that is an [int64],
    the nearest bound with a range error when it is not, and an error when
    the string spells no integer. *)
Definition parses_as (fn s : string) (r : Z * option error) : Prop :=
  match decimal_value s with
  | Some n =>
      (in_int64 n -> r = (n, None))
      /\ (2 ^ 63 <= n -> r = (2 ^ 63 - 1, Some (strconv.rangeError fn s)))
      /\ (n < - 2 ^ 63 -> r = (- 2 ^ 63, Some (strconv.rangeError fn s)))
  | None => exists v e, r = (v, Some (NumError fn s e))
  end.

(** The cutoff of the digit loop of [ParseUint] at base 10. *)
Definition cutoff64 : Z := strconv.maxUint64 / 10 + 1.

(** What [ParseUint] makes of the digits that follow the sign. *)
Inductive digits_parse (s : string) : Z * option error -> Prop :=
| dp_value v :
    s <> "" -> digits_value (strconv.bytes s) 0 = Some v ->
    v <= strconv.maxUint64 ->
    digits_parse s (v, None)
| dp_range v :
    s <> "" -> digits_value (strconv.bytes s) 0 = Some v ->
    strconv.maxUint64 < v ->
    digits_parse s (strconv.maxUint64, Some (strconv.rangeError "ParseUint" s))
| dp_range_nondigit :
    s <> "" -> digits_value (strconv.bytes s) 0 = None ->
    digits_parse s (strconv.maxUint64, Some (strconv.rangeError "ParseUint" s))
| dp_syntax :
    s = "" \/ digits_value (strconv.bytes s) 0 = None ->
    digits_parse s (0, Some (strconv.syntaxError "ParseUint" s)).

(** The part of [ParseInt] that follows the call of [ParseUint], at a width
    of 64 bits. *)
Definition after_ParseUint (neg : bool) (s0 : string) (r : Z * option error)
  : Z * option error :=
  match snd r with
  | Some (NumError _ _ ErrRange) | None =>
      if negb neg && (fst r >=? 2 ^ 63)
      then (2 ^ 63 - 1, Some (strconv.rangeError "ParseInt" s0))
      else if neg && (fst r >? 2 ^ 63)
      then (- 2 ^ 63, Some (strconv.rangeError "ParseInt" s0))
      else ((if neg then strconv.to_int64 (- strconv.to_int64 (fst r))
             else strconv.to_int64 (fst r)), None)
  | Some (NumError _ _ e) => (0, Some (NumError "ParseInt" s0 e))
  | Some e => (0, Some e)
  end.

End Decimal.

(** The two errors of [ParseData] about the shape of the document. *)
Definition structural (e : error) : Prop := e = ErrNoConfigTag \/ e = ErrNoSubTags.

(** ** Stand-ins for the collaborators

    Small instances on which the statements are tried: a converter that
    knows four documents, an expansion without placeholders to expand, a
    float parser that knows one literal (floats as their 64 bits), and a
    file system of regular files. *)
Module Sample.

Definition doc_nested : string :=
  "<config><debug>true</debug><db><port>5432</port></db></config>".
Definition doc_flat : string := "<config><a>1</a></config>".
Definition doc_no_wrapper : string := "<settings><a>1</a></settings>".
Definition doc_text_only : string := "<config>text</config>".

Definition convert (doc : string) (σ : store)
  : store * (option loc * option error) :=
  if decide (doc = doc_nested) then
    let '(σ, db) := make_map σ in
    let σ := <[db := {["port" := VString "5432"]}]> σ in
    let '(σ, cfg) := make_map σ in
    let σ := <[cfg := {["debug" := VString "true"; "db" := VMap db]}]> σ in
    let '(σ, root) := make_map σ in
    (<[root := {["config" := VMap cfg]}]> σ, (Some root, None))
  else if decide (doc = doc_flat) then
    let '(σ, cfg) := make_map σ in
    let σ := <[cfg := {["a" := VString "1"]}]> σ in
    let '(σ, root) := make_map σ in
    (<[root := {["config" := VMap cfg]}]> σ, (Some root, None))
  else if decide (doc = doc_no_wrapper) then
    let '(σ, m) := make_map σ in
    let σ := <[m := {["a" := VString "1"]}]> σ in
    let '(σ, root) := make_map σ in
    (<[root := {["settings" := VMap m]}]> σ, (Some root, None))
  else if decide (doc = doc_text_only) then
    let '(σ, root) := make_map σ in
    (<[root := {["config" := VString "text"]}]> σ, (Some root, None))
  else (σ, (None, Some (ErrExternal "x2j: the document does not parse"))).

#[local] Instance collaborators : Collaborators := {|
  float64 := Z;
  ParseFloat s bitSize :=
    if decide (s = "1.5") then (4609434218613702656%Z, None)
    else (0%Z, Some (NumError "ParseFloat" s ErrSyntax));
  DocToMap := convert;
  ExpandValueEnvForMap m σ := (σ, m)
|}.

#[local] Instance os : OS := {|
  filesystem := gmap string string;
  File := string;
  ReadFile name fs :=
    match fs !! name with
    | Some content => (fs, (content, None))
    | None => (fs, ("", Some (ErrExternal "no such file or directory")))
    end;
  OpenFile name flag perm fs :=
    match fs !! name with
    | Some _ => (fs, inl name)
    | None =>
        if Z.testbit flag 6 then (<[name := ""]> fs, inl name)
        else (fs, inr (ErrExternal "no such file or directory"))
    end;
  file_Write f b fs :=
    let old := default "" (fs !! f) in
    (<[f := b ++ strings.slice_from old (strconv.len b)]> fs, (strconv.len b, None));
  file_Close f fs := (fs, None)
|}.

(** A store with a parent node at 1 and a nested node at 2. *)
Definition σ0 : store :=
  {[ 1%positive := {[ "debug" := VString "TRUE"; "off" := VString "F";
                      "name" := VString "beego"; "list" := VString "a;b;c";
                      "db" := VMap 2; "empty" := VString "" ]};
     2%positive := {[ "port" := VString "5432"; "rate" := VString "1.5" ]} ]}.

End Sample.

(** ** Further parts of the package *)

(** [strings.Join(elems, sep)], the inverse that the statements about
    [strings.Split] are made against. *)
Fixpoint Join (elems : list string) (sep : string) : string :=
  match elems with
  | [] => ""
  | [e] => e
  | e :: rest => e ++ sep ++ Join rest sep
  end.

(** The error of [GetSection]: section '<section>' not found. *)
Inductive sectionError : Type :=
| ErrSectionNotFound (section : string).

Section Stringify.
(** [config.ToString] of core/config, which renders any value as a string;
    it is a parameter here. *)
Variable ToString : value -> string.

(** [func (c *ConfigContainer) GetSection(section string) (map[string]string, error)];
    the [range] loop runs over the entries of the nested map, whose keys are
    distinct, and fills a new map. *)
Definition GetSection (σ : store) (c : ConfigContainer) (section : string)
  : option (gmap string string) * option sectionError :=
  match index (deref σ (data c)) section with
  | VMap v =>
      let mapstr :=
        map_fold (fun k val (mapstr : gmap string string) =>
                    <[k := ToString val]> mapstr) ∅ (deref σ v) in
      (Some mapstr, None)
  | _ => (None, Some (ErrSectionNotFound section))
  end.

End Stringify.

(** Further stores on which statements are tried: the tree of the document
    <config><a><b><c>1</c></b></a></config> with its root node at 1, and a
    node that holds the nil value under a key. *)
Module Sample2.

Definition σ_path : store :=
  {[ 1%positive := {[ "a" := VMap 2 ]};
     2%positive := {[ "b" := VMap 3 ]};
     3%positive := {[ "c" := VString "1" ]} ]}.

Definition σ_nil : store :=
  {[ 1%positive := {[ "n" := VNil; "s" := VSlice [VString "x"; VString "y"] ]} ]}.

(** A rendering of values for [GetSection]: strings as they are. *)
Definition render (v : value) : string :=
  match v with
  | VString s => s
  | VNil => "<nil>"
  | VMap _ => "map[]"
  | VSlice _ => "[]"
  end.

End Sample2.

(** ** strconv: the float parser, at 64 bits

    [Float] reaches [strconv.ParseFloat(s, 64)].  What decides whether a
    string parses is the reading of the literal ([special], [readFloat],
    [underscoreOK]), which is given in full; the arithmetic that turns a
    literal that was read into the nearest float ([atofHex], the fast paths
    and the decimal fallback of [atof64]) is a parameter over an abstract
    type of floats. *)
Class FloatCore (F : Type) : Type := {
  fzero : F;                       (* the float 0 *)
  Inf : Z -> F;                    (* math.Inf(sign) *)
  NaN : F;                         (* math.NaN() *)
  (* the conversion of the literal [lit], read as [mantissa], [exp], [neg],
     [trunc] and [hex], with the error it may find: ErrRange, or ErrSyntax
     from [decimal.set] *)
  convert : list Z -> Z -> Z -> bool -> bool -> bool -> F * option numErr
}.

Module atof.

Local Open Scope Z_scope.

(** [commonPrefixLenIgnoreCase(s, prefix)], with [prefix] in lower case. *)
Fixpoint commonPrefixLenIgnoreCase (s prefix : list Z) : Z :=
  match s, prefix with
  | c :: s', p :: prefix' =>
      let c := if (65 <=? c) && (c <=? 90) then strconv.to_byte (c + (97 - 65)) else c in
      if c =? p then 1 + commonPrefixLenIgnoreCase s' prefix' else 0
  | _, _ => 0
  end.

(** The body that [special] runs on a string that starts with a sign (after
    the sign) or with the letter i. *)
Definition special_inf {F} `{FloatCore F} (s : list Z) (sign nsign : Z)
  : F * Z * bool :=
  let n := commonPrefixLenIgnoreCase s (strconv.bytes "infinity") in
  let n := if (3 <? n) && (n <? 8) then 3 else n in
  if (n =? 3) || (n =? 8) then (Inf sign, nsign + n, true)
  else (fzero, 0, false).

(** [special(s)]: the float, the bytes taken and whether a special name
    starts the string. *)
Definition special {F} `{FloatCore F} (s : list Z) : F * Z * bool :=
  match s with
  | [] => (fzero, 0, false)
  | c :: s' =>
      if (c =? 43) || (c =? 45) then
        special_inf s' (if c =? 45 then -1 else 1) 1
      else if (c =? 105) || (c =? 73) then special_inf s 1 0
      else if (c =? 110) || (c =? 78) then
        if commonPrefixLenIgnoreCase s (strconv.bytes "nan") =? 3
        then (NaN, 3, true) else (fzero, 0, false)
      else (fzero, 0, false)
  end.

(** The last character that [underscoreOK] saw. *)
Inductive saw : Type :=
| SawBegin       (* '^' *)
| SawDigit       (* '0' *)
| SawUnderscore  (* '_' *)
| SawOther.      (* '!' *)

Fixpoint underscoreOK_loop (hex : bool) (s : list Z) (sw : saw) : bool :=
  match s with
  | [] => match sw with SawUnderscore => false | _ => true end
  | c :: s' =>
      if ((48 <=? c) && (c <=? 57))
         || (hex && (97 <=? strconv.lower c) && (strconv.lower c <=? 102))
      then underscoreOK_loop hex s' SawDigit
      else if c =? 95 then
        match sw with
        | SawDigit => underscoreOK_loop hex s' SawUnderscore
        | _ => false
        end
      else
        match sw with
        | SawUnderscore => false
        | _ => underscoreOK_loop hex s' SawOther
        end
  end.

(** [underscoreOK(s)] *)
Definition underscoreOK (s : list Z) : bool :=
  let s := match s with
           | c :: s' => if (c =? 45) || (c =? 43) then s' else s
           | [] => s
           end in
  match s with
  | c0 :: c1 :: s' =>
      if (c0 =? 48)
         && ((strconv.lower c1 =? 98) || (strconv.lower c1 =? 111)
             || (strconv.lower c1 =? 120))
      then underscoreOK_loop (strconv.lower c1 =? 120) s' SawDigit
      else underscoreOK_loop false s SawBegin
  | _ => underscoreOK_loop false s SawBegin
  end.

(** The variables of [readFloat] that its loops update. *)
Record reading : Type := mkReading {
  mantissa : Z; nd : Z; ndMant : Z; dp : Z;
  sawdot : bool; sawdigits : bool; trunc : bool; underscores : bool
}.

(** The loop of [readFloat] over the digits of the mantissa; it gives the
    variables and the bytes that it did not take. *)
Fixpoint readFloat_digits (base maxMantDigits : Z) (s : list Z) (r : reading)
  : reading * list Z :=
  match s with
  | [] => (r, [])
  | c :: s' =>
      if c =? 95 then
        readFloat_digits base maxMantDigits s'
          (mkReading (mantissa r) (nd r) (ndMant r) (dp r)
                     (sawdot r) (sawdigits r) (trunc r) true)
      else if c =? 46 then
        if sawdot r then (r, s)
        else readFloat_digits base maxMantDigits s'
               (mkReading (mantissa r) (nd r) (ndMant r) (nd r)
                          true (sawdigits r) (trunc r) (underscores r))
      else if (48 <=? c) && (c <=? 57) then
        if (c =? 48) && (nd r =? 0) then
          readFloat_digits base maxMantDigits s'
            (mkReading (mantissa r) (nd r) (ndMant r) (dp r - 1)
                       (sawdot r) true (trunc r) (underscores r))
        else if ndMant r <? maxMantDigits then
          readFloat_digits base maxMantDigits s'
            (mkReading (strconv.to_uint64
                          (strconv.to_uint64 (mantissa r * base)
                           + strconv.to_byte (c - 48)))
                       (nd r + 1) (ndMant r + 1) (dp r)
                       (sawdot r) true (trunc r) (underscores r))
        else
          readFloat_digits base maxMantDigits s'
            (mkReading (mantissa r) (nd r + 1) (ndMant r) (dp r)
                       (sawdot r) true
                       (if negb (c =? 48) then true else trunc r)
                       (underscores r))
      else if (base =? 16) && (97 <=? strconv.lower c) && (strconv.lower c <=? 102)
      then
        if ndMant r <? maxMantDigits then
          readFloat_digits base maxMantDigits s'
            (mkReading (strconv.to_uint64
                          (strconv.to_uint64 (mantissa r * 16)
                           + strconv.to_byte (strconv.lower c - 97 + 10)))
                       (nd r + 1) (ndMant r + 1) (dp r)
                       (sawdot r) true (trunc r) (underscores r))
        else
          readFloat_digits base maxMantDigits s'
            (mkReading (mantissa r) (nd r + 1) (ndMant r) (dp r)
                       (sawdot r) true true (underscores r))
      else (r, s)
  end.

(** The loop of [readFloat] over the digits of the exponent; it gives [e],
    whether it met an underscore, and the bytes that it did not take. *)
Fixpoint readFloat_exp (s : list Z) (e : Z) (us : bool) : Z * bool * list Z :=
  match s with
  | c :: s' =>
      if c =? 95 then readFloat_exp s' e true
      else if (48 <=? c) && (c <=? 57) then
        readFloat_exp s' (if e <? 10000 then e * 10 + c - 48 else e) us
      else (e, us, s)
  | [] => (e, us, [])
  end.

(** The results of [readFloat]. *)
Record floatRead : Type := mkFloatRead {
  fr_mantissa : Z; fr_exp : Z; fr_neg : bool; fr_trunc : bool; fr_hex : bool;
  fr_i : Z; fr_ok : bool
}.

(** [readFloat(s)].  The index [i] is the length of [s] less the bytes not
    taken yet. *)
Definition readFloat (s : list Z) : floatRead :=
  let len := Z.of_nat (length s) in
  let at_ (rest : list Z) := len - Z.of_nat (length rest) in
  match s with
  | [] => mkFloatRead 0 0 false false false 0 false
  | c :: s' =>
      (* optional sign *)
      let '(neg, s1) :=
        if c =? 43 then (false, s')
        else if c =? 45 then (true, s')
        else (false, s) in
      (* digits *)
      let '(base, maxMantDigits, expChar, hex, s2) :=
        match s1 with
        | c0 :: c1 :: c2 :: s1' =>
            if (c0 =? 48) && (strconv.lower c1 =? 120)
            then (16, 16, 112, true, c2 :: s1')
            else (10, 19, 101, false, s1)
        | _ => (10, 19, 101, false, s1)
        end in
      let '(r, s3) :=
        readFloat_digits base maxMantDigits s2
          (mkReading 0 0 0 0 false false false false) in
      if negb (sawdigits r)
      then mkFloatRead (mantissa r) 0 neg (trunc r) hex (at_ s3) false
      else
        let dp := if negb (sawdot r) then nd r else dp r in
        let '(dp, ndMant) :=
          if base =? 16 then (dp * 4, ndMant r * 4) else (dp, ndMant r) in
        let fail (rest : list Z) :=
          mkFloatRead (mantissa r) 0 neg (trunc r) hex (at_ rest) false in
        (* what follows the exponent, if there is one *)
        let finish (dp : Z) (us : bool) (rest : list Z) :=
          let exp := if negb (mantissa r =? 0) then dp - ndMant else 0 in
          if us && negb (underscoreOK (take (Z.to_nat (at_ rest)) s))
          then mkFloatRead (mantissa r) exp neg (trunc r) hex (at_ rest) false
          else mkFloatRead (mantissa r) exp neg (trunc r) hex (at_ rest) true in
        match s3 with
        | c :: s4 =>
            if strconv.lower c =? expChar then
              match s4 with
              | [] => fail s4
              | c' :: s5 =>
                  let '(esign, s6) :=
                    if c' =? 43 then (1, s5)
                    else if c' =? 45 then (-1, s5)
                    else (1, s4) in
                  match s6 with
                  | [] => fail s6
                  | d :: _ =>
                      if (d <? 48) || (d >? 57) then fail s6
                      else
                        let '(e, us, s7) := readFloat_exp s6 0 (underscores r) in
                        finish (dp + e * esign) us s7
                  end
              end
            else if base =? 16 then fail s3
            else finish dp (underscores r) s3
        | [] =>
            if base =? 16 then fail s3
            else finish dp (underscores r) s3
        end
  end.

(** [atof64(s)]: the float, the bytes taken, and the error. *)
Definition atof64 {F} `{FloatCore F} (s : string) : F * Z * option error :=
  let cs := strconv.bytes s in
  match special cs with
  | (val, n, true) => (val, n, None)
  | _ =>
      let fr := readFloat cs in
      if negb (fr_ok fr)
      then (fzero, fr_i fr, Some (strconv.syntaxError "ParseFloat" s))
      else
        let '(f, err) :=
          convert (take (Z.to_nat (fr_i fr)) cs) (fr_mantissa fr) (fr_exp fr)
                  (fr_neg fr) (fr_trunc fr) (fr_hex fr) in
        (f, fr_i fr,
         match err with
         | Some e => Some (NumError "ParseFloat" s e)
         | None => None
         end)
  end.

(** [strconv.ParseFloat(s, 64)] *)
Definition ParseFloat {F} `{FloatCore F} (s : string) : F * option error :=
  let '(f, n, err) := atof64 s in
  if negb (n =? strconv.len s)
     && match err with
        | None => true
        | Some (NumError _ _ ErrSyntax) => false
        | Some _ => true
        end
  then (fzero, Some (strconv.syntaxError "ParseFloat" s))
  else (f, err).

End atof.

(** Floats as they are read, before any rounding: a stand-in for the
    arithmetic of [atof64] on which the float parser can be run. *)
Inductive symfloat : Type :=
| SZero
| SInf (sign : Z)
| SNaN
| SNum (neg : bool) (mantissa exp : Z) (hex trunc : bool).

Module Sample3.

#[local] Instance core : FloatCore symfloat := {|
  fzero := SZero;
  Inf := SInf;
  NaN := SNaN;
  convert lit mantissa exp neg trunc hex := (SNum neg mantissa exp hex trunc, None)
|}.

#[local] Instance collaborators : Collaborators := {|
  float64 := symfloat;
  ParseFloat s bitSize := @atof.ParseFloat symfloat core s;
  DocToMap := Sample.convert;
  ExpandValueEnvForMap m σ := (σ, m)
|}.

End Sample3.

(** ** The shape of a float literal

    What [strconv.ParseFloat] is documented to take: a decimal or a
    hexadecimal floating-point number (an optional sign, digits that
    underscores may separate with one point at most, and an exponent, which
    a hexadecimal number must have), or one of the names inf, infinity and
    nan in any case, the first two with an optional sign.  A string that has
    none of these shapes is not numeric. *)
Module FloatSyntax.

Local Open Scope Z_scope.



(** The lower-case letter [l], in either case. *)
Definition letter (l c : Z) : bool := (c =? l) || (c =? l - 32).

Definition sign (cs : list Z) : Prop := cs = [] \/ cs = [43] \/ cs = [45].



Definition name (nm : string) (cs : list Z) : Prop :=
  Forall2 (fun c l => letter l c = true) cs (strconv.bytes nm).




End FloatSyntax.

(** * Properties *)

(** ** Reading a node *)

Lemma index_lookup_Some (m : gmap string value) (key : string) (v : value) :
  m !! key = Some v -> index m key = v.
Proof. intros Hm. unfold index. now rewrite Hm. Qed.

Lemma index_lookup_None (m : gmap string value) (key : string) :
  m !! key = None -> index m key = VNil.
Proof. intros Hm. unfold index. now rewrite Hm. Qed.

Lemma ParseBool_truthy (V : string) :
  V ∈ truthy -> ParseBool (VString V) = (true, None).
Proof. intros HV. unfold ParseBool. now rewrite bool_decide_eq_true_2. Qed.

Lemma truthy_falsy_disjoint (V : string) : V ∈ truthy -> V ∈ falsy -> False.
Proof.
  unfold truthy, falsy. rewrite !elem_of_cons, !elem_of_nil.
  intros Ht Hf.
  repeat match goal with
         | H : _ \/ _ |- _ => destruct H
         | H : False |- _ => destruct H
         end; congruence.
Qed.

Lemma ParseBool_falsy (V : string) :
  V ∈ falsy -> ParseBool (VString V) = (false, None).
Proof.
  intros HV. unfold ParseBool.
  rewrite bool_decide_eq_false_2 by (intros Ht; exact (truthy_falsy_disjoint V Ht HV)).
  now rewrite bool_decide_eq_true_2.
Qed.

Lemma ParseBool_other (V : string) :
  V ∉ truthy -> V ∉ falsy ->
  ParseBool (VString V) = (false, Some (ErrParseBool (VString V))).
Proof.
  intros Ht Hf. unfold ParseBool.
  now rewrite !bool_decide_eq_false_2.
Qed.

(** C2: for a key that holds a string, [Bool] gives true without an error on
    the six true spellings, false without an error on the six false
    spellings, and the type error of the token parser on every other string;
    for a key that the node does not hold it gives the not-found error. *)
Theorem Bool_spellings (σ : gmap positive (gmap string value))
    (c : ConfigContainer) (K : string) :
  (forall V : string,
      deref σ (data c) !! K = Some (VString V) ->
      (V ∈ truthy -> Bool σ c K = (true, None))
      /\ (V ∈ falsy -> Bool σ c K = (false, None))
      /\ (V ∉ truthy -> V ∉ falsy ->
          Bool σ c K = (false, Some (ErrParseBool (VString V)))))
  /\ (deref σ (data c) !! K = None ->
      Bool σ c K = (false, Some (ErrNotExistKey K))).
Proof.
  split.
  - intros V HK. unfold Bool. rewrite (index_lookup_Some _ _ _ HK).
    split; [|split].
    + apply ParseBool_truthy.
    + apply ParseBool_falsy.
    + apply ParseBool_other.
  - intros HK. unfold Bool. now rewrite (index_lookup_None _ _ HK).
Qed.

(** C5: [String] never returns an error; it gives the stored string of a key
    that holds one and the empty string for a key that is absent or holds
    something else.  [DefaultString] gives the default whenever [String]
    yields the empty string or an error, and the stored string otherwise. *)
Theorem String_never_fails (σ : gmap positive (gmap string value))
    (c : ConfigContainer) (K : string) :
  snd (String σ c K) = None
  /\ (forall V : string,
        deref σ (data c) !! K = Some (VString V) -> String σ c K = (V, None))
  /\ (deref σ (data c) !! K = None -> String σ c K = ("", None))
  /\ (forall v : value,
        deref σ (data c) !! K = Some v -> dyntype v <> TString ->
        String σ c K = ("", None))
  /\ (forall d : string,
        fst (String σ c K) = "" \/ snd (String σ c K) <> None ->
        DefaultString σ c K d = d)
  /\ (forall d V : string,
        deref σ (data c) !! K = Some (VString V) -> V <> "" ->
        DefaultString σ c K d = V).
Proof.
  unfold DefaultString, String.
  repeat split.
  - now destruct (index _ K).
  - intros V HK. now rewrite (index_lookup_Some _ _ _ HK).
  - intros HK. now rewrite (index_lookup_None _ _ HK).
  - intros v HK Hv. rewrite (index_lookup_Some _ _ _ HK).
    destruct v; simpl in Hv; congruence.
  - intros d [Hempty | Herr].
    + destruct (index _ K); simpl in *; subst; reflexivity.
    + destruct (index _ K); simpl in *; congruence.
  - intros d V HK HV. rewrite (index_lookup_Some _ _ _ HK).
    now rewrite bool_decide_eq_false_2.
Qed.

(** C6: on the stored string "a;b;c" [Strings] gives the three pieces in
    order; when [String] yields the empty string, as it does for an absent
    key, [Strings] gives the nil slice and no error. *)
Theorem Strings_split (σ : gmap positive (gmap string value))
    (c : ConfigContainer) (K : string) :
  (deref σ (data c) !! K = Some (VString "a;b;c") ->
   Strings σ c K = (Some ["a"; "b"; "c"], None))
  /\ (fst (String σ c K) = "" -> Strings σ c K = (None, None))
  /\ (deref σ (data c) !! K = None -> Strings σ c K = (None, None)).
Proof.
  unfold Strings, String.
  repeat split.
  - intros HK. now rewrite (index_lookup_Some _ _ _ HK).
  - destruct (index _ K); simpl; intros Hs; subst; reflexivity.
  - intros HK. now rewrite (index_lookup_None _ _ HK).
Qed.

(** ** Writing a node *)

Lemma deref_insert_eq (σ : gmap positive (gmap string value)) (l : positive)
    (m : gmap string value) :
  deref (<[l := m]> σ) l = m.
Proof. unfold deref. now rewrite lookup_insert_eq. Qed.

Lemma deref_insert_ne (σ : gmap positive (gmap string value)) (l l' : positive)
    (m : gmap string value) :
  l <> l' -> deref (<[l := m]> σ) l' = deref σ l'.
Proof. intros Hne. unfold deref. now rewrite lookup_insert_ne. Qed.

Lemma Set_lookup_eq σ c K V :
  deref (fst (Set_ σ c K V)) (data c) !! K = Some (VString V).
Proof. simpl. rewrite deref_insert_eq. apply lookup_insert_eq. Qed.

Lemma Set_lookup_ne σ c K K' V :
  K' <> K ->
  deref (fst (Set_ σ c K V)) (data c) !! K' = deref σ (data c) !! K'.
Proof.
  intros Hne. simpl. rewrite deref_insert_eq. now apply lookup_insert_ne.
Qed.

Lemma Set_other_map σ c K V l :
  l <> data c -> deref (fst (Set_ σ c K V)) l = deref σ l.
Proof. intros Hne. simpl. now apply deref_insert_ne. Qed.

(** C10: [Set] returns the nil error, leaves the node with [K] bound to the
    string [V], and leaves every other key of the node (and every other map
    of the store) as it was. *)
Theorem Set_frame (σ : gmap positive (gmap string value))
    (c : ConfigContainer) (K V : string) :
  snd (Set_ σ c K V) = None
  /\ deref (fst (Set_ σ c K V)) (data c) !! K = Some (VString V)
  /\ (forall K' : string,
        K' <> K ->
        deref (fst (Set_ σ c K V)) (data c) !! K' = deref σ (data c) !! K')
  /\ (forall l : positive,
        l <> data c -> deref (fst (Set_ σ c K V)) l = deref σ l).
Proof.
  split; [reflexivity|]. split; [apply Set_lookup_eq|].
  split; [intros K'; apply Set_lookup_ne | intros l; apply Set_other_map].
Qed.

(** ** Narrowing *)

(** [sub] gives a map and no error, or no map and an error. *)
Lemma sub_results σ c K :
  (exists m, sub σ c K = (Some m, None)) \/ (exists e, sub σ c K = (None, Some e)).
Proof.
  unfold sub. destruct (decide (K = "")); [left; now eexists|].
  destruct (deref σ (data c) !! K) as [[| |l|]|];
    (left; now eexists) || (right; now eexists).
Qed.

Lemma Sub_Some σ c K c' :
  Sub σ c K = (Some c', None) ->
  (K = "" /\ c' = c) \/ (K <> "" /\ deref σ (data c) !! K = Some (VMap (data c'))).
Proof.
  unfold Sub, sub. destruct (decide (K = "")) as [->|HK].
  - intros [= <-]. left. now destruct c.
  - destruct (deref σ (data c) !! K) as [[| |l|]|]; intros [= <-].
    right. now split.
Qed.

(** C9: the container that [Sub] returns works on the very map that the
    parent holds under [K].  After a [Set] through the narrowed container,
    every container on that map reads the new string, and so does a
    container narrowed again from the parent; narrowing at the empty key
    gives a container on the current node; narrowing fails when [K] is
    absent or does not hold a map. *)
Theorem Sub_shares_mapping (σ : gmap positive (gmap string value))
    (c : ConfigContainer) (K : string) :
  (forall m : positive,
      K <> "" -> deref σ (data c) !! K = Some (VMap m) ->
      Sub σ c K = (Some (mkContainer m), None))
  /\ (forall (c' : ConfigContainer) (K2 V : string),
        Sub σ c K = (Some c', None) ->
        let σ' := fst (Set_ σ c' K2 V) in
        (forall c2 : ConfigContainer,
            data c2 = data c' ->
            DIY σ' c2 K2 = (VString V, None) /\ String σ' c2 K2 = (V, None))
        /\ (data c <> data c' \/ K2 <> K ->
            Sub σ' c K = (Some c', None)))
  /\ Sub σ c "" = (Some (mkContainer (data c)), None)
  /\ (K <> "" -> deref σ (data c) !! K = None ->
      Sub σ c K = (None, Some (ErrKeyNotFound K)))
  /\ (forall v : value,
        K <> "" -> deref σ (data c) !! K = Some v -> dyntype v <> TMap ->
        Sub σ c K = (None, Some (ErrNotStructure K))).
Proof.
  split; [|split; [|split; [|split]]].
  - intros m HK Hm. unfold Sub, sub.
    rewrite decide_False by exact HK. now rewrite Hm.
  - intros c' K2 V HSub σ'. split.
    + intros c2 Hc2. unfold DIY, String, index. rewrite Hc2.
      subst σ'. now rewrite Set_lookup_eq.
    + intros Hfar. destruct (Sub_Some _ _ _ _ HSub) as [[-> ->]|[HK Hm]].
      * unfold Sub, sub. simpl. now destruct c.
      * unfold Sub, sub. rewrite decide_False by exact HK.
        assert (deref σ' (data c) !! K = Some (VMap (data c'))) as ->.
        { subst σ'. destruct (decide (data c = data c')) as [Heq|Hne].
          - rewrite Heq in Hm |- *. rewrite Set_lookup_ne; [exact Hm|].
            destruct Hfar as [Hfar|Hfar]; congruence.
          - rewrite Set_other_map; [exact Hm|exact Hne]. }
        now destruct c'.
  - reflexivity.
  - intros HK Hnone. unfold Sub, sub.
    rewrite decide_False by exact HK. now rewrite Hnone.
  - intros v HK Hv Hty. unfold Sub, sub.
    rewrite decide_False by exact HK. rewrite Hv.
    destruct v; simpl in Hty; congruence.
Qed.

(** ** The integer parsers *)
Section Parsers.
Import strconv Decimal.
Local Open Scope Z_scope.

Lemma pow2_64 : 2 ^ 64 = 18446744073709551616.
Proof. reflexivity. Qed.
Lemma pow2_63 : 2 ^ 63 = 9223372036854775808.
Proof. reflexivity. Qed.
Lemma pow2_8 : 2 ^ 8 = 256.
Proof. reflexivity. Qed.

Ltac unwrap :=
  unfold to_int, to_int64, to_uint64, to_byte, maxUint64, intSize in *;
  change (64 - 1) with 63 in *;
  rewrite ?pow2_64, ?pow2_63, ?pow2_8 in *.

Lemma bytes_range (s : string) : Forall (fun c => 0 <= c < 256) (bytes s).
Proof.
  unfold bytes. induction s as [|a s IH]; simpl; constructor; [|exact IH].
  pose proof (N_ascii_bounded a). lia.
Qed.

Lemma bytes_nil (s : string) : bytes s = [] -> s = "".
Proof. destruct s; [reflexivity|discriminate]. Qed.

Lemma length_bytes (s : string) : length (bytes s) = String.length s.
Proof.
  unfold bytes. rewrite length_map. induction s; simpl; congruence.
Qed.

Lemma digits_value_ge (cs : list Z) : forall n v,
  0 <= n -> digits_value cs n = Some v -> n <= v.
Proof.
  induction cs as [|c cs IH]; simpl; intros n v Hn Hv.
  - injection Hv as <-. lia.
  - destruct ((48 <=? c) && (c <=? 57)) eqn:Hc; [|discriminate].
    apply andb_true_iff in Hc as [H1 H2].
    apply Z.leb_le in H1, H2.
    apply IH in Hv; lia.
Qed.

Lemma digits_value_lt (cs : list Z) : forall n v,
  0 <= n -> digits_value cs n = Some v ->
  v < (n + 1) * 10 ^ Z.of_nat (length cs).
Proof.
  induction cs as [|c cs IH]; intros n v Hn Hv.
  - simpl in *. injection Hv as <-. lia.
  - simpl in Hv. destruct ((48 <=? c) && (c <=? 57)) eqn:Hc; [|discriminate].
    apply andb_true_iff in Hc as [H1 H2].
    apply Z.leb_le in H1, H2.
    apply IH in Hv; [|lia].
    rewrite length_cons, Nat2Z.inj_succ, Z.pow_succ_r by lia.
    assert (0 < 10 ^ Z.of_nat (length cs)) by (apply Z.pow_pos_nonneg; lia).
    nia.
Qed.

Lemma Atoi_loop_ok (s0 : string) (cs : list Z) : forall n v,
  0 <= n -> digits_value cs n = Some v -> v < 2 ^ 63 ->
  Atoi_loop s0 cs n = (v, None).
Proof.
  induction cs as [|c cs IH]; simpl; intros n v Hn Hv Hlt.
  - congruence.
  - destruct ((48 <=? c) && (c <=? 57)) eqn:Hc; [|discriminate].
    apply andb_true_iff in Hc as [H1 H2].
    apply Z.leb_le in H1, H2.
    assert (n * 10 + (c - 48) <= v) as Hge
      by (eapply digits_value_ge; [|exact Hv]; lia).
    assert (to_byte (c - 48) = c - 48) as ->
      by (unwrap; apply Z.mod_small; lia).
    assert ((c - 48 >? 9) = false) as -> by lia.
    assert (to_int (n * 10 + (c - 48)) = n * 10 + (c - 48)) as ->.
    { unwrap. rewrite Z.mod_small; lia. }
    apply IH; [lia|exact Hv|exact Hlt].
Qed.

Lemma Atoi_loop_bad (s0 : string) (cs : list Z) : forall n n',
  Forall (fun c => 0 <= c < 256) cs ->
  digits_value cs n = None ->
  Atoi_loop s0 cs n' = (0, Some (syntaxError "Atoi" s0)).
Proof.
  induction cs as [|c cs IH]; simpl; intros n n' Hcs Hv; [discriminate|].
  inversion Hcs as [|? ? Hc Hcs']; subst.
  destruct ((48 <=? c) && (c <=? 57)) eqn:Hd.
  - apply andb_true_iff in Hd as [H1 H2].
    apply Z.leb_le in H1, H2.
    assert (to_byte (c - 48) = c - 48) as ->
      by (unwrap; apply Z.mod_small; lia).
    assert ((c - 48 >? 9) = false) as -> by lia.
    eapply IH; eassumption.
  - assert ((to_byte (c - 48) >? 9) = true) as ->; [|reflexivity].
    apply andb_false_iff in Hd. unwrap.
    destruct (Z.lt_ge_cases c 48) as [Hlo|Hhi].
    + replace ((c - 48) mod 256) with (c - 48 + 256); [lia|].
      apply Z.mod_unique with (q := -1); lia.
    + rewrite Z.mod_small by lia.
      destruct Hd as [Hd|Hd]; [apply Z.leb_gt in Hd|apply Z.leb_gt in Hd]; lia.
Qed.

Lemma ParseUint_loop_digit (s0 : string) (c : Z) (cs : list Z) (n : Z) :
  48 <= c <= 57 -> 0 <= n ->
  ParseUint_loop s0 cutoff64 maxUint64 (c :: cs) n =
    if n * 10 + (c - 48) <=? maxUint64
    then ParseUint_loop s0 cutoff64 maxUint64 cs (n * 10 + (c - 48))
    else (maxUint64, Some (rangeError "ParseUint" s0)).
Proof.
  intros Hc Hn. simpl.
  assert ((48 <=? c) && (c <=? 57) = true) as -> by lia.
  assert (to_byte (c - 48) = c - 48) as ->
    by (unwrap; apply Z.mod_small; lia).
  assert (to_byte 10 = 10) as -> by reflexivity.
  assert ((c - 48 >=? 10) = false) as -> by lia.
  change cutoff64 with 1844674407370955162.
  destruct (n >=? 1844674407370955162) eqn:Hcut.
  - assert ((n * 10 + (c - 48) <=? maxUint64) = false) as ->; [|reflexivity].
    unwrap. lia.
  - assert (to_uint64 (n * 10) = n * 10) as ->
      by (unwrap; apply Z.mod_small; lia).
    destruct (n * 10 + (c - 48) <=? maxUint64) eqn:Hfit.
    + assert (to_uint64 (n * 10 + (c - 48)) = n * 10 + (c - 48)) as ->
        by (unwrap; apply Z.mod_small; lia).
      assert ((n * 10 + (c - 48) <? n * 10)
              || (n * 10 + (c - 48) >? maxUint64) = false) as -> by lia.
      reflexivity.
    + assert (to_uint64 (n * 10 + (c - 48)) = n * 10 + (c - 48) - 2 ^ 64) as ->.
      { unwrap. symmetry. apply Z.mod_unique with (q := 1); lia. }
      assert ((n * 10 + (c - 48) - 2 ^ 64 <? n * 10) = true) as ->
        by (rewrite pow2_64; lia).
      reflexivity.
Qed.

Lemma ParseUint_loop_nondigit (s0 : string) (c : Z) (cs : list Z) (n : Z) :
  (48 <=? c) && (c <=? 57) = false ->
  ParseUint_loop s0 cutoff64 maxUint64 (c :: cs) n =
    (0, Some (syntaxError "ParseUint" s0)).
Proof.
  intros Hc. simpl. rewrite Hc.
  destruct ((97 <=? lower c) && (lower c <=? 122)) eqn:Hl; [|reflexivity].
  apply andb_true_iff in Hl as [H1 H2].
  apply Z.leb_le in H1, H2.
  assert (to_byte (lower c - 97 + 10) = lower c - 97 + 10) as ->
    by (unwrap; apply Z.mod_small; lia).
  assert (to_byte 10 = 10) as -> by reflexivity.
  assert ((lower c - 97 + 10 >=? 10) = true) as -> by lia.
  reflexivity.
Qed.

Lemma ParseUint_loop_ok (s0 : string) (cs : list Z) : forall n v,
  0 <= n -> digits_value cs n = Some v -> v <= maxUint64 ->
  ParseUint_loop s0 cutoff64 maxUint64 cs n = (v, None).
Proof.
  induction cs as [|c cs IH]; intros n v Hn Hv Hle.
  - simpl in *. congruence.
  - simpl in Hv. destruct ((48 <=? c) && (c <=? 57)) eqn:Hc; [|discriminate].
    assert (48 <= c <= 57) as Hc' by lia.
    rewrite ParseUint_loop_digit by assumption.
    assert (n * 10 + (c - 48) <= v) as Hge
      by (eapply digits_value_ge; [|exact Hv]; lia).
    assert ((n * 10 + (c - 48) <=? maxUint64) = true) as -> by lia.
    apply IH; [lia|exact Hv|exact Hle].
Qed.

Lemma ParseUint_loop_range (s0 : string) (cs : list Z) : forall n v,
  0 <= n <= maxUint64 -> digits_value cs n = Some v -> maxUint64 < v ->
  ParseUint_loop s0 cutoff64 maxUint64 cs n =
    (maxUint64, Some (rangeError "ParseUint" s0)).
Proof.
  induction cs as [|c cs IH]; intros n v Hn Hv Hgt.
  - simpl in *. injection Hv as <-. lia.
  - simpl in Hv. destruct ((48 <=? c) && (c <=? 57)) eqn:Hc; [|discriminate].
    assert (48 <= c <= 57) as Hc' by lia.
    rewrite ParseUint_loop_digit by (assumption || lia).
    destruct (n * 10 + (c - 48) <=? maxUint64) eqn:Hfit; [|reflexivity].
    apply IH with (v := v); [lia|exact Hv|exact Hgt].
Qed.

Lemma ParseUint_loop_bad (s0 : string) (cs : list Z) : forall n,
  0 <= n -> digits_value cs n = None ->
  ParseUint_loop s0 cutoff64 maxUint64 cs n = (0, Some (syntaxError "ParseUint" s0))
  \/ ParseUint_loop s0 cutoff64 maxUint64 cs n =
       (maxUint64, Some (rangeError "ParseUint" s0)).
Proof.
  induction cs as [|c cs IH]; intros n Hn Hv; [discriminate|].
  simpl in Hv. destruct ((48 <=? c) && (c <=? 57)) eqn:Hc.
  - assert (48 <= c <= 57) as Hc' by lia.
    rewrite ParseUint_loop_digit by assumption.
    destruct (n * 10 + (c - 48) <=? maxUint64); [|now right].
    apply IH; [lia|exact Hv].
  - left. now apply ParseUint_loop_nondigit.
Qed.

Lemma ParseUint_64 (s : string) (bitSize : Z) :
  bitSize = 0 \/ bitSize = 64 -> s <> "" ->
  ParseUint s bitSize = ParseUint_loop s cutoff64 maxUint64 (bytes s) 0.
Proof.
  intros [-> | ->] Hs; unfold ParseUint; rewrite decide_False by exact Hs;
    reflexivity.
Qed.

Lemma ParseUint_cases (s : string) (bitSize : Z) :
  bitSize = 0 \/ bitSize = 64 -> digits_parse s (ParseUint s bitSize).
Proof.
  intros Hb. destruct (decide (s = "")) as [->|Hs].
  - destruct Hb as [-> | ->]; apply dp_syntax; now left.
  - rewrite ParseUint_64 by assumption.
    destruct (digits_value (bytes s) 0) as [v|] eqn:Hv.
    + destruct (Z.le_gt_cases v maxUint64) as [Hle|Hgt].
      * rewrite (ParseUint_loop_ok s _ 0 v) by (assumption || lia).
        now apply dp_value.
      * rewrite (ParseUint_loop_range s _ 0 v) by (assumption || unwrap; lia).
        now apply dp_range with (v := v).
    + destruct (ParseUint_loop_bad s _ 0 ltac:(lia) Hv) as [-> | ->].
      * apply dp_syntax. now right.
      * now apply dp_range_nondigit.
Qed.

Lemma ParseInt_unfold (c : ascii) (rest : string) (bitSize : Z) :
  bitSize = 0 \/ bitSize = 64 ->
  ParseInt (String.String c rest) bitSize =
    if Ascii.eqb c "+"
    then after_ParseUint false (String.String c rest) (ParseUint rest bitSize)
    else if Ascii.eqb c "-"
    then after_ParseUint true (String.String c rest) (ParseUint rest bitSize)
    else after_ParseUint false (String.String c rest)
           (ParseUint (String.String c rest) bitSize).
Proof.
  intros [-> | ->]; unfold ParseInt, after_ParseUint;
    destruct (Ascii.eqb c "+"); [|destruct (Ascii.eqb c "-")| |destruct (Ascii.eqb c "-")];
    match goal with |- context [ParseUint ?s ?b] => destruct (ParseUint s b) as [un [[]|]] end;
    reflexivity.
Qed.

Lemma after_ParseUint_pos (s0 s : string) (r : Z * option error) :
  digits_parse s r ->
  match (if decide (s = "") then None else digits_value (bytes s) 0) with
  | Some n =>
      (in_int64 n -> after_ParseUint false s0 r = (n, None))
      /\ (2 ^ 63 <= n ->
          after_ParseUint false s0 r = (2 ^ 63 - 1, Some (rangeError "ParseInt" s0)))
  | None => exists v e, after_ParseUint false s0 r = (v, Some (NumError "ParseInt" s0 e))
  end.
Proof.
  intros Hr. unfold after_ParseUint, in_int64.
  destruct Hr as [v Hs Hv Hle | v Hs Hv Hgt | Hs Hv | Hs]; simpl.
  - rewrite decide_False by exact Hs. rewrite Hv.
    assert (0 <= v) by (eapply digits_value_ge; [|exact Hv]; lia).
    split; intros Hn.
    + assert ((v >=? 2 ^ 63) = false) as -> by lia.
      unwrap. rewrite Z.mod_small by lia. f_equal. lia.
    + now assert ((v >=? 2 ^ 63) = true) as -> by lia.
  - rewrite decide_False by exact Hs. rewrite Hv.
    split; intros Hn; [unwrap; lia|reflexivity].
  - rewrite decide_False by exact Hs. rewrite Hv. now eexists _, _.
  - assert ((if decide (s = "") then None else digits_value (bytes s) 0) = None) as ->.
    { destruct (decide (s = "")) as [He|He]; [reflexivity|]. now destruct Hs. }
    now eexists _, _.
Qed.

Lemma after_ParseUint_neg (s0 s : string) (r : Z * option error) :
  digits_parse s r ->
  match (if decide (s = "") then None else digits_value (bytes s) 0) with
  | Some n =>
      (in_int64 (- n) -> after_ParseUint true s0 r = (- n, None))
      /\ (- n < - 2 ^ 63 ->
          after_ParseUint true s0 r = (- 2 ^ 63, Some (rangeError "ParseInt" s0)))
  | None => exists v e, after_ParseUint true s0 r = (v, Some (NumError "ParseInt" s0 e))
  end.
Proof.
  intros Hr. unfold after_ParseUint, in_int64.
  destruct Hr as [v Hs Hv Hle | v Hs Hv Hgt | Hs Hv | Hs]; simpl.
  - rewrite decide_False by exact Hs. rewrite Hv.
    assert (0 <= v) by (eapply digits_value_ge; [|exact Hv]; lia).
    split; intros Hn.
    + assert ((v >? 2 ^ 63) = false) as -> by lia.
      f_equal. unwrap.
      destruct (Z.eq_dec v 9223372036854775808) as [->|Hne]; [reflexivity|].
      rewrite (Z.mod_small (v + _)) by lia.
      replace (v + 9223372036854775808 - 9223372036854775808) with v by lia.
      replace ((- v + 9223372036854775808) mod 18446744073709551616)
        with (- v + 9223372036854775808); [lia|].
      symmetry. apply Z.mod_small. lia.
    + now assert ((v >? 2 ^ 63) = true) as -> by lia.
  - rewrite decide_False by exact Hs. rewrite Hv.
    split; intros Hn; [unwrap; lia|reflexivity].
  - rewrite decide_False by exact Hs. rewrite Hv. now eexists _, _.
  - assert ((if decide (s = "") then None else digits_value (bytes s) 0) = None) as ->.
    { destruct (decide (s = "")) as [He|He]; [reflexivity|]. now destruct Hs. }
    now eexists _, _.
Qed.

Lemma ParseInt_parses (s : string) (bitSize : Z) :
  bitSize = 0 \/ bitSize = 64 -> parses_as "ParseInt" s (ParseInt s bitSize).
Proof.
  intros Hb. unfold parses_as. destruct s as [|c rest].
  - simpl. now eexists _, _.
  - rewrite ParseInt_unfold by exact Hb. unfold decimal_value.
    destruct (Ascii.eqb c "+") eqn:Hplus; [|destruct (Ascii.eqb c "-") eqn:Hminus].
    + pose proof (after_ParseUint_pos (String.String c rest) rest _
                    (ParseUint_cases rest bitSize Hb)) as Hpos.
      destruct (decide (rest = "")) as [Hrest|Hrest]; [exact Hpos|].
      destruct (digits_value (bytes rest) 0) as [n|] eqn:Hn; [|exact Hpos].
      destruct Hpos as [H1 H2]. split; [exact H1|split; [exact H2|]].
      assert (0 <= n) by (eapply digits_value_ge; [|exact Hn]; lia). lia.
    + pose proof (after_ParseUint_neg (String.String c rest) rest _
                    (ParseUint_cases rest bitSize Hb)) as Hneg.
      destruct (decide (rest = "")) as [Hrest|Hrest]; [exact Hneg|].
      destruct (digits_value (bytes rest) 0) as [n|] eqn:Hn; [|exact Hneg].
      simpl. destruct Hneg as [H1 H2]. split; [exact H1|split; [|exact H2]].
      assert (0 <= n) by (eapply digits_value_ge; [|exact Hn]; lia). lia.
    + pose proof (after_ParseUint_pos (String.String c rest) (String.String c rest) _
                    (ParseUint_cases _ bitSize Hb)) as Hpos.
      rewrite decide_False in Hpos by discriminate.
      destruct (digits_value (bytes (String.String c rest)) 0) as [n|] eqn:Hn;
        [|exact Hpos].
      destruct Hpos as [H1 H2]. split; [exact H1|split; [exact H2|]].
      assert (0 <= n) by (eapply digits_value_ge; [|exact Hn]; lia). lia.
Qed.

Lemma Atoi_slow (s : string) :
  (0 <? len s) && (len s <? 19) = false ->
  Atoi s = (to_int (fst (ParseInt s 0)),
            match snd (ParseInt s 0) with
            | Some (NumError _ num e) => Some (NumError "Atoi" num e)
            | e => e
            end).
Proof.
  intros Hlen. unfold Atoi.
  change (intSize =? 32) with false. change (intSize =? 64) with true.
  cbn [andb orb]. rewrite Hlen.
  destruct (ParseInt s 0) as [i64 [[]|]]; reflexivity.
Qed.

Lemma Atoi_fast (c : ascii) (rest : string) :
  (0 <? len (String.String c rest)) && (len (String.String c rest) <? 19) = true ->
  Atoi (String.String c rest) =
    let s0 := String.String c rest in
    let sign := Ascii.eqb c "-" || Ascii.eqb c "+" in
    let s := if sign then rest else s0 in
    if sign && (len s <? 1) then (0, Some (syntaxError "Atoi" s0))
    else match Atoi_loop s0 (bytes s) 0 with
         | (n, None) => ((if Ascii.eqb c "-" then to_int (- n) else n), None)
         | r => r
         end.
Proof.
  intros Hlen. unfold Atoi.
  change (intSize =? 32) with false. change (intSize =? 64) with true.
  cbn [andb orb]. now rewrite Hlen.
Qed.

Lemma len_nonempty (s : string) : s <> "" -> (len s <? 1) = false.
Proof.
  destruct s; [congruence|]. intros _. unfold len.
  cbn [String.length]. rewrite Nat2Z.inj_succ. apply Z.ltb_ge. lia.
Qed.

Lemma Atoi_fast_digits (s0 s : string) :
  (String.length s < 19)%nat ->
  match digits_value (bytes s) 0 with
  | Some v => Atoi_loop s0 (bytes s) 0 = (v, None) /\ 0 <= v < 10 ^ 18
  | None => Atoi_loop s0 (bytes s) 0 = (0, Some (syntaxError "Atoi" s0))
  end.
Proof.
  intros Hlen. destruct (digits_value (bytes s) 0) as [v|] eqn:Hv.
  - assert (0 <= v) by (eapply digits_value_ge; [|exact Hv]; lia).
    assert (v < 10 ^ 18).
    { pose proof (digits_value_lt _ _ _ (Z.le_refl 0) Hv) as Hlt.
      rewrite length_bytes in Hlt.
      assert (10 ^ Z.of_nat (String.length s) <= 10 ^ 18)
        by (apply Z.pow_le_mono_r; lia).
      lia. }
    split; [|lia]. apply Atoi_loop_ok; [lia|exact Hv|].
    rewrite pow2_63. change (10 ^ 18) with 1000000000000000000 in *. lia.
  - eapply Atoi_loop_bad; [apply bytes_range|exact Hv].
Qed.

Lemma Atoi_parses (s : string) : parses_as "Atoi" s (Atoi s).
Proof.
  destruct ((0 <? len s) && (len s <? 19)) eqn:Hlen.
  - destruct s as [|c rest]; [discriminate|].
    rewrite Atoi_fast by exact Hlen. cbv zeta.
    assert (String.length rest < 18)%nat as Hrest.
    { unfold len in Hlen. cbn [String.length] in Hlen.
      apply andb_true_iff in Hlen as [_ Hlen]. apply Z.ltb_lt in Hlen.
      apply Nat2Z.inj_lt. rewrite Nat2Z.inj_succ in Hlen. lia. }
    unfold parses_as, decimal_value, in_int64.
    change (10 ^ 18) with 1000000000000000000 in *.
    destruct (Ascii.eqb c "+") eqn:Hplus; [|destruct (Ascii.eqb c "-") eqn:Hminus].
    + apply Ascii.eqb_eq in Hplus as ->.
      change (Ascii.eqb "+" "-") with false. change (Ascii.eqb "+" "+") with true.
      cbn [orb andb].
      destruct (decide (rest = "")) as [->|Hne]; [now eexists _, _|].
      rewrite len_nonempty by exact Hne.
      pose proof (Atoi_fast_digits (String.String "+" rest) rest ltac:(lia)) as Hd.
      destruct (digits_value (bytes rest) 0) as [v|].
      * destruct Hd as [-> Hv]. change (10 ^ 18) with 1000000000000000000 in Hv.
        rewrite pow2_63. repeat split; intros; (reflexivity || lia).
      * rewrite Hd. now eexists _, _.
    + apply Ascii.eqb_eq in Hminus as ->.
      change (Ascii.eqb "-" "-") with true. change (Ascii.eqb "-" "+") with false.
      cbn [orb andb].
      destruct (decide (rest = "")) as [->|Hne]; [now eexists _, _|].
      rewrite len_nonempty by exact Hne.
      pose proof (Atoi_fast_digits (String.String "-" rest) rest ltac:(lia)) as Hd.
      destruct (digits_value (bytes rest) 0) as [v|]; simpl.
      * destruct Hd as [-> Hv]. change (10 ^ 18) with 1000000000000000000 in Hv.
        rewrite pow2_63. repeat split; intros; try lia.
        f_equal. unwrap. rewrite Z.mod_small; lia.
      * rewrite Hd. now eexists _, _.
    + cbn [orb andb].
      pose proof (Atoi_fast_digits (String.String c rest) (String.String c rest)) as Hd.
      simpl String.length in Hd. specialize (Hd ltac:(lia)).
      destruct (digits_value (bytes (String.String c rest)) 0) as [v|].
      * destruct Hd as [-> Hv]. change (10 ^ 18) with 1000000000000000000 in Hv.
        rewrite pow2_63. repeat split; intros; (reflexivity || lia).
      * rewrite Hd. now eexists _, _.
  - rewrite Atoi_slow by exact Hlen.
    pose proof (ParseInt_parses s 0 ltac:(now left)) as Hp.
    unfold parses_as in *. destruct (decimal_value s) as [n|].
    + destruct Hp as (H1 & H2 & H3). repeat split; intros Hn.
      * rewrite (H1 Hn). simpl. f_equal. unfold in_int64 in Hn.
        unwrap. rewrite Z.mod_small; lia.
      * rewrite (H2 Hn). reflexivity.
      * rewrite (H3 Hn). reflexivity.
    + destruct Hp as (v & e & ->). now eexists _, _.
Qed.

End Parsers.

(** ** The float parser *)
Section FloatParser.
Import FloatSyntax.
Local Open Scope Z_scope.



(** *** The special names *)




(** *** The literal *)





End FloatParser.


(** ** The numeric getters *)

Lemma assert_string_absent (m : gmap string value) (K : string) :
  m !! K = None ->
  assert_string (index m K) = Panics (InterfaceConversion TNil TString).
Proof. intros HK. now rewrite (index_lookup_None _ _ HK). Qed.

Lemma assert_string_present (m : gmap string value) (K V : string) :
  m !! K = Some (VString V) -> assert_string (index m K) = Returns V.
Proof. intros HK. now rewrite (index_lookup_Some _ _ _ HK). Qed.


(** C7 as amended: after [Set(K, V)] with [V] a decimal spelling of an
    integer [n] that [int] can hold, [Int(K)] returns [(n, nil)]; [Set]
    itself returns nil. *)
Theorem Set_then_Int (σ : gmap positive (gmap string value))
    (c : ConfigContainer) (K V : string) (n : Z) :
  Decimal.decimal_value V = Some n -> Decimal.in_int64 n ->
  snd (Set_ σ c K V) = None
  /\ Int (fst (Set_ σ c K V)) c K = Returns (n, None).
Proof.
  intros Hn Hin. split; [reflexivity|].
  unfold Int. rewrite (assert_string_present _ _ V) by apply Set_lookup_eq.
  cbn [obind]. pose proof (Atoi_parses V) as HA.
  unfold Decimal.parses_as in HA. rewrite Hn in HA.
  destruct HA as [HA _]. now rewrite (HA Hin).
Qed.

(** ** The default-valued wrappers *)

(** Where the strict getter returns, its wrapper gives the value on a nil
    error and the default on any error. *)
Lemma default_wrappers_absorb_errors `{Collaborators}
    (σ : gmap positive (gmap string value)) (c : ConfigContainer) (K : string) :
  (forall d, DefaultBool σ c K d =
             match Bool σ c K with (v, None) => v | (_, Some _) => d end)
  /\ (forall d v err, Int σ c K = Returns (v, err) ->
        DefaultInt σ c K d = Returns (match err with None => v | Some _ => d end))
  /\ (forall d v err, Int64 σ c K = Returns (v, err) ->
        DefaultInt64 σ c K d = Returns (match err with None => v | Some _ => d end))
  /\ (forall d v err, Float σ c K = Returns (v, err) ->
        DefaultFloat σ c K d = Returns (match err with None => v | Some _ => d end)).
Proof.
  unfold DefaultBool, DefaultInt, DefaultInt64, DefaultFloat.
  split; [|split; [|split]].
  - intros d. now destruct (Bool σ c K) as [v [e|]].
  - intros d v err ->. now destruct err.
  - intros d v err ->. now destruct err.
  - intros d v err ->. now destruct err.
Qed.

(** C4, the defect: on a key that the node does not hold, [DefaultInt],
    [DefaultInt64] and [DefaultFloat] do not give the default; the panic of
    the strict getter goes through them.  [DefaultBool] gives the default. *)
Theorem default_wrappers_absent_key `{Collaborators}
    (σ : gmap positive (gmap string value)) (c : ConfigContainer) (K : string) :
  deref σ (data c) !! K = None ->
  (forall d, DefaultInt σ c K d = Panics (InterfaceConversion TNil TString))
  /\ (forall d, DefaultInt64 σ c K d = Panics (InterfaceConversion TNil TString))
  /\ (forall d, DefaultFloat σ c K d = Panics (InterfaceConversion TNil TString))
  /\ (forall d, DefaultBool σ c K d = d).
Proof.
  intros HK.
  unfold DefaultInt, DefaultInt64, DefaultFloat, DefaultBool, Int, Int64, Float, Bool.
  rewrite (assert_string_absent _ _ HK), (index_lookup_None _ _ HK).
  split; [|split; [|split]]; intros d; reflexivity.
Qed.

(** ** Loading and saving *)

(** C1: when the converted document has no "config" key, or holds under it
    something that is not a map, [ParseData] returns one of the two
    structural errors and the nil handle; when it holds a map there,
    [ParseData] returns the container over what [ExpandValueEnvForMap] gives
    for that map, and no error. *)
Theorem ParseData_wrapping `{Collaborators} (bytes : string)
    (σ σ1 : gmap positive (gmap string value)) (d : option positive) :
  DocToMap bytes (fst (make_map σ)) = (σ1, (d, None)) ->
  (deref_nilable σ1 d !! "config" = None ->
   ParseData bytes σ = (σ1, (None, Some ErrNoConfigTag)))
  /\ (forall v : value,
        deref_nilable σ1 d !! "config" = Some v -> dyntype v <> TMap ->
        exists e, structural e /\ ParseData bytes σ = (σ1, (None, Some e)))
  /\ (forall confVal : positive,
        deref_nilable σ1 d !! "config" = Some (VMap confVal) ->
        ParseData bytes σ =
          (fst (ExpandValueEnvForMap confVal σ1),
           (Some (mkContainer (snd (ExpandValueEnvForMap confVal σ1))), None))).
Proof.
  intros Hdoc. unfold ParseData.
  destruct (make_map σ) as [σ' x_data]. simpl in Hdoc. rewrite Hdoc.
  split; [|split].
  - intros Hc. now rewrite (index_lookup_None _ _ Hc).
  - intros v Hc Hty. rewrite (index_lookup_Some _ _ _ Hc).
    destruct v; simpl in Hty; try congruence.
    + exists ErrNoConfigTag. split; [now left|reflexivity].
    + exists ErrNoSubTags. split; [now right|reflexivity].
    + exists ErrNoSubTags. split; [now right|reflexivity].
  - intros confVal Hc. rewrite (index_lookup_Some _ _ _ Hc).
    now destruct (ExpandValueEnvForMap confVal σ1).
Qed.

(** C8, the defect: [SaveConfigFile] returns an error on every container,
    path and file system, and writes nothing: the file system it leaves is
    the one that opening (and closing) the file leaves. *)
Theorem SaveConfigFile_never_saves `{OS} (σ : gmap positive (gmap string value))
    (c : ConfigContainer) (filename : string) (fs : filesystem) :
  snd (SaveConfigFile σ c filename fs) <> None
  /\ fst (SaveConfigFile σ c filename fs) =
       match OpenFile filename (Z.lor (Z.lor O_RDWR O_CREATE) O_NOFOLLOW) 384 fs with
       | (fs', inl f) => fst (file_Close f fs')
       | (fs', inr _) => fs'
       end.
Proof.
  unfold SaveConfigFile.
  destruct (OpenFile filename _ 384 fs) as [fs' [f|err]]; simpl; now split.
Qed.

(** * The statements at concrete inputs *)

Ltac member := repeat constructor.
Ltac not_member :=
  match goal with
  | |- ?x ∉ ?l => apply (bool_decide_eq_false_1 (x ∈ l)); vm_compute; reflexivity
  end.

Lemma Bool_spellings_witness :
  Bool Sample.σ0 (mkContainer 1) "debug" = (true, None)
  /\ Bool Sample.σ0 (mkContainer 1) "off" = (false, None)
  /\ Bool Sample.σ0 (mkContainer 1) "name"
     = (false, Some (ErrParseBool (VString "beego")))
  /\ Bool Sample.σ0 (mkContainer 1) "missing"
     = (false, Some (ErrNotExistKey "missing")).
Proof.
  split; [|split; [|split]].
  - apply (proj1 (Bool_spellings Sample.σ0 (mkContainer 1) "debug") "TRUE");
      [reflexivity | member].
  - apply (proj1 (Bool_spellings Sample.σ0 (mkContainer 1) "off") "F");
      [reflexivity | member].
  - apply (proj1 (Bool_spellings Sample.σ0 (mkContainer 1) "name") "beego");
      [reflexivity | not_member | not_member].
  - apply (proj2 (Bool_spellings Sample.σ0 (mkContainer 1) "missing")).
    reflexivity.
Defined.

Lemma String_never_fails_witness :
  String Sample.σ0 (mkContainer 1) "name" = ("beego", None)
  /\ String Sample.σ0 (mkContainer 1) "missing" = ("", None)
  /\ String Sample.σ0 (mkContainer 1) "db" = ("", None)
  /\ DefaultString Sample.σ0 (mkContainer 1) "missing" "fallback" = "fallback"
  /\ DefaultString Sample.σ0 (mkContainer 1) "empty" "fallback" = "fallback"
  /\ DefaultString Sample.σ0 (mkContainer 1) "name" "fallback" = "beego".
Proof.
  pose proof (String_never_fails Sample.σ0 (mkContainer 1) "name")
    as (_ & Hname & _ & _ & _ & Hdname).
  pose proof (String_never_fails Sample.σ0 (mkContainer 1) "missing")
    as (_ & _ & Hmissing & _ & Hdmissing & _).
  pose proof (String_never_fails Sample.σ0 (mkContainer 1) "db")
    as (_ & _ & _ & Hdb & _ & _).
  pose proof (String_never_fails Sample.σ0 (mkContainer 1) "empty")
    as (_ & _ & _ & _ & Hdempty & _).
  split; [|split; [|split; [|split; [|split]]]].
  - apply Hname. reflexivity.
  - apply Hmissing. reflexivity.
  - apply (Hdb (VMap 2)); [reflexivity | discriminate].
  - apply Hdmissing. left. reflexivity.
  - apply Hdempty. left. reflexivity.
  - apply Hdname; [reflexivity | discriminate].
Defined.

Lemma Strings_split_witness :
  Strings Sample.σ0 (mkContainer 1) "list" = (Some ["a"; "b"; "c"], None)
  /\ Strings Sample.σ0 (mkContainer 1) "empty" = (None, None)
  /\ Strings Sample.σ0 (mkContainer 1) "missing" = (None, None).
Proof.
  split; [|split].
  - apply (proj1 (Strings_split Sample.σ0 (mkContainer 1) "list")). reflexivity.
  - apply (proj1 (proj2 (Strings_split Sample.σ0 (mkContainer 1) "empty"))).
    reflexivity.
  - apply (proj2 (proj2 (Strings_split Sample.σ0 (mkContainer 1) "missing"))).
    reflexivity.
Defined.

Lemma Set_frame_witness :
  deref (fst (Set_ Sample.σ0 (mkContainer 1) "name" "bee")) 1 !! "debug"
    = Some (VString "TRUE")
  /\ deref (fst (Set_ Sample.σ0 (mkContainer 1) "name" "bee")) 2
     = deref Sample.σ0 2.
Proof.
  pose proof (Set_frame Sample.σ0 (mkContainer 1) "name" "bee")
    as (_ & _ & Hkeys & Hmaps).
  split.
  - transitivity (deref Sample.σ0 1 !! "debug");
      [apply (Hkeys "debug"); discriminate | reflexivity].
  - apply Hmaps. discriminate.
Defined.

Lemma Sub_shares_mapping_witness :
  Sub Sample.σ0 (mkContainer 1) "db" = (Some (mkContainer 2), None)
  /\ String (fst (Set_ Sample.σ0 (mkContainer 2) "port" "3306")) (mkContainer 2) "port"
     = ("3306", None)
  /\ Sub (fst (Set_ Sample.σ0 (mkContainer 2) "port" "3306")) (mkContainer 1) "db"
     = (Some (mkContainer 2), None)
  /\ Sub Sample.σ0 (mkContainer 1) "missing" = (None, Some (ErrKeyNotFound "missing"))
  /\ Sub Sample.σ0 (mkContainer 1) "name" = (None, Some (ErrNotStructure "name")).
Proof.
  pose proof (Sub_shares_mapping Sample.σ0 (mkContainer 1) "db")
    as (Hsub & Hshare & _ & _ & _).
  pose proof (Sub_shares_mapping Sample.σ0 (mkContainer 1) "missing")
    as (_ & _ & _ & Hmissing & _).
  pose proof (Sub_shares_mapping Sample.σ0 (mkContainer 1) "name")
    as (_ & _ & _ & _ & Hname).
  assert (Sub Sample.σ0 (mkContainer 1) "db" = (Some (mkContainer 2), None)) as Hdb
    by (apply Hsub; [discriminate | reflexivity]).
  destruct (Hshare (mkContainer 2) "port" "3306" Hdb) as [Hread Hagain].
  split; [exact Hdb|]. split; [|split; [|split]].
  - apply (Hread (mkContainer 2)). reflexivity.
  - apply Hagain. left. discriminate.
  - apply Hmissing; [discriminate | reflexivity].
  - apply (Hname (VString "beego")); [discriminate | reflexivity | discriminate].
Defined.


Lemma Set_then_Int_witness :
  Int (fst (Set_ Sample.σ0 (mkContainer 1) "x" "5")) (mkContainer 1) "x"
    = Returns (5%Z, None).
Proof.
  apply (Set_then_Int Sample.σ0 (mkContainer 1) "x" "5" 5);
    [reflexivity | unfold Decimal.in_int64; lia].
Defined.

(** C7 as it is written fails where the integer is too large for [int]:
    2^63 has a decimal spelling, and [Int] answers with a range error. *)
Lemma Set_then_Int_out_of_range :
  ~ (forall (σ : gmap positive (gmap string value)) (c : ConfigContainer)
            (K V : string) (n : Z),
        Decimal.decimal_value V = Some n ->
        Int (fst (Set_ σ c K V)) c K = Returns (n, None)).
Proof.
  intros Hclaim.
  specialize (Hclaim ∅ (mkContainer 1) "x" "9223372036854775808"
                9223372036854775808%Z eq_refl).
  vm_compute in Hclaim. discriminate Hclaim.
Qed.

Example Set_then_Int_at_2_63 :
  Int (fst (Set_ ∅ (mkContainer 1) "x" "9223372036854775808")) (mkContainer 1) "x"
  = Returns (9223372036854775807%Z,
             Some (NumError "Atoi" "9223372036854775808" ErrRange)).
Proof. vm_compute. reflexivity. Qed.

Lemma default_wrappers_absent_key_witness :
  DefaultInt Sample.σ0 (mkContainer 2) "missing" 7
    = Panics (InterfaceConversion TNil TString)
  /\ DefaultInt64 Sample.σ0 (mkContainer 2) "missing" 7
     = Panics (InterfaceConversion TNil TString)
  /\ @DefaultFloat Sample.collaborators Sample.σ0 (mkContainer 2) "missing" 0%Z
     = Panics (InterfaceConversion TNil TString)
  /\ DefaultBool Sample.σ0 (mkContainer 2) "missing" true = true.
Proof.
  destruct (@default_wrappers_absent_key Sample.collaborators Sample.σ0
              (mkContainer 2) "missing" eq_refl) as (HInt & HInt64 & HFloat & HBool).
  split; [apply HInt|]. split; [apply HInt64|]. split; [apply HFloat|apply HBool].
Defined.

Lemma ParseData_wrapping_witness :
  (exists σ1, @ParseData Sample.collaborators Sample.doc_no_wrapper ∅
              = (σ1, (None, Some ErrNoConfigTag)))
  /\ (exists σ1 e, structural e
        /\ @ParseData Sample.collaborators Sample.doc_text_only ∅
           = (σ1, (None, Some e)))
  /\ (exists σ1 c, @ParseData Sample.collaborators Sample.doc_nested ∅
                   = (σ1, (Some c, None))
        /\ deref σ1 (data c) !! "debug" = Some (VString "true")).
Proof.
  split; [|split].
  - eexists.
    eapply (proj1 (@ParseData_wrapping Sample.collaborators
                     Sample.doc_no_wrapper ∅ _ _ eq_refl)).
    reflexivity.
  - destruct (proj1 (proj2 (@ParseData_wrapping Sample.collaborators
                              Sample.doc_text_only ∅ _ _ eq_refl))
                (VString "text")) as (e & He & Hparse);
      [vm_compute; reflexivity | discriminate |].
    eexists _, e. split; [exact He | exact Hparse].
  - eexists _, _. split.
    + eapply (proj2 (proj2 (@ParseData_wrapping Sample.collaborators
                              Sample.doc_nested ∅ _ _ eq_refl))).
      reflexivity.
    + reflexivity.
Defined.

(** C8 at a concrete input: the flat document is loaded and saved to a path
    that does not exist yet.  The save creates the file, fails in the
    encoder and leaves the file empty; loading it again gives no handle. *)
Example SaveConfigFile_sample :
  match @ParseData Sample.collaborators Sample.doc_flat ∅ with
  | (σ, (Some c, None)) =>
      String σ c "a" = ("1", None)
      /\ @SaveConfigFile Sample.os σ c "out.xml" ∅
         = ({["out.xml" := ""]}, Some (ErrUnsupportedType "map[string]interface {}"))
      /\ exists e, snd (@Parse Sample.collaborators Sample.os "out.xml"
                          {["out.xml" := ""]} σ) = (None, Some e)
  | _ => False
  end.
Proof. vm_compute. split; [reflexivity|]. split; [reflexivity|]. now eexists. Qed.

(** * Further properties of the package *)

(** ** When the numeric getters return *)

(** X1: [Int], [Int64] and [Float] return, rather than panic, exactly when
    the key holds a string: an absent key, a nil value, a nested section and
    a slice all make the type assertion fail. *)
Theorem numeric_getters_return_iff `{Collaborators}
    (σ : gmap positive (gmap string value)) (c : ConfigContainer) (K : string) :
  ((exists r, Int σ c K = Returns r)
   <-> exists V, deref σ (data c) !! K = Some (VString V))
  /\ ((exists r, Int64 σ c K = Returns r)
      <-> exists V, deref σ (data c) !! K = Some (VString V))
  /\ ((exists r, Float σ c K = Returns r)
      <-> exists V, deref σ (data c) !! K = Some (VString V))
  /\ (forall v, deref σ (data c) !! K = Some v -> dyntype v <> TString ->
        Int σ c K = Panics (InterfaceConversion (dyntype v) TString)
        /\ Int64 σ c K = Panics (InterfaceConversion (dyntype v) TString)
        /\ Float σ c K = Panics (InterfaceConversion (dyntype v) TString)).
Proof.
  unfold Int, Int64, Float, index.
  split; [|split; [|split]].
  1-3: split;
    [ intros [r Hr]; destruct (deref σ (data c) !! K) as [[| V | |]|];
      simpl in Hr; try discriminate; now exists V
    | intros [V ->]; simpl; now eexists ].
  intros v -> Hty. destruct v; simpl in *; try congruence; now split; [|split].
Qed.

Lemma parses_as_success (fn s : string) (r : Z * option error) (n : Z) :
  Decimal.parses_as fn s r ->
  r = (n, None) <-> Decimal.decimal_value s = Some n /\ Decimal.in_int64 n.
Proof.
  unfold Decimal.parses_as, Decimal.in_int64. intros Hp.
  destruct (Decimal.decimal_value s) as [m|].
  - destruct Hp as (Hin & Hhi & Hlo). split.
    + intros ->.
      destruct (Z_lt_ge_dec m (- 2 ^ 63)) as [Hl|Hl];
        [specialize (Hlo Hl); discriminate|].
      destruct (Z_lt_ge_dec m (2 ^ 63)) as [Hh|Hh];
        [|specialize (Hhi ltac:(lia)); discriminate].
      specialize (Hin ltac:(lia)). injection Hin as ->. split; [reflexivity|lia].
    + intros [[= ->] Hn]. now apply Hin.
  - destruct Hp as (v & e & ->). split; [discriminate|intros [? _]; discriminate].
Qed.

(** X2: on a key that holds the string [V], [Int] returns [(n, nil)] exactly
    when [V] is a decimal spelling of [n] and [n] is an [int64]; [Int64]
    does under the same condition, so the two succeed together and with the
    same integer. *)
Theorem Int_succeeds_iff (σ : gmap positive (gmap string value))
    (c : ConfigContainer) (K V : string) (n : Z) :
  deref σ (data c) !! K = Some (VString V) ->
  (Int σ c K = Returns (n, None)
   <-> Decimal.decimal_value V = Some n /\ Decimal.in_int64 n)
  /\ (Int64 σ c K = Returns (n, None)
      <-> Decimal.decimal_value V = Some n /\ Decimal.in_int64 n)
  /\ (Int σ c K = Returns (n, None) <-> Int64 σ c K = Returns (n, None)).
Proof.
  intros HK. unfold Int, Int64.
  rewrite (assert_string_present _ _ _ HK). cbn [obind].
  pose proof (parses_as_success "Atoi" V (strconv.Atoi V) n (Atoi_parses V)) as HA.
  pose proof (parses_as_success "ParseInt" V (strconv.ParseInt V 64) n
                (ParseInt_parses V 64 ltac:(now right))) as HP.
  assert (forall r : Z * option error, Returns r = Returns (n, None) <-> r = (n, None))
    as Hinj by (intros r; split; [now intros [= ->]|now intros ->]).
  rewrite !Hinj. split; [exact HA|]. split; [exact HP|].
  rewrite HA, HP. reflexivity.
Qed.

Lemma Int_succeeds_iff_witness :
  Int Sample.σ0 (mkContainer 2) "port" = Returns (5432%Z, None)
  <-> Int64 Sample.σ0 (mkContainer 2) "port" = Returns (5432%Z, None).
Proof.
  exact (proj2 (proj2 (Int_succeeds_iff Sample.σ0 (mkContainer 2) "port" "5432"
                         5432%Z eq_refl))).
Defined.

(** X3: on a key that holds the string [V], [DefaultInt] and [DefaultInt64]
    never panic: they return the integer when [V] is a decimal spelling of
    an [int64], and the default in every other case. *)
Theorem DefaultInt_on_string (σ : gmap positive (gmap string value))
    (c : ConfigContainer) (K V : string) (d : Z) :
  deref σ (data c) !! K = Some (VString V) ->
  (forall n, Decimal.decimal_value V = Some n -> Decimal.in_int64 n ->
     DefaultInt σ c K d = Returns n /\ DefaultInt64 σ c K d = Returns n)
  /\ ((forall n, Decimal.decimal_value V = Some n -> ~ Decimal.in_int64 n) ->
      DefaultInt σ c K d = Returns d /\ DefaultInt64 σ c K d = Returns d).
Proof.
  intros HK. unfold DefaultInt, DefaultInt64, Int, Int64.
  rewrite (assert_string_present _ _ _ HK). cbn [obind].
  pose proof (Atoi_parses V) as HA.
  pose proof (ParseInt_parses V 64 ltac:(now right)) as HP.
  unfold Decimal.parses_as in HA, HP.
  split.
  - intros n Hn Hin. rewrite Hn in HA, HP.
    destruct HA as [HA _], HP as [HP _]. now rewrite (HA Hin), (HP Hin).
  - intros Hnot. destruct (Decimal.decimal_value V) as [m|].
    + specialize (Hnot m eq_refl).
      destruct HA as (_ & HAhi & HAlo), HP as (_ & HPhi & HPlo).
      assert (2 ^ 63 <= m \/ m < - 2 ^ 63)%Z as [Hhi|Hlo]
        by (unfold Decimal.in_int64 in Hnot; lia).
      * now rewrite (HAhi Hhi), (HPhi Hhi).
      * now rewrite (HAlo Hlo), (HPlo Hlo).
    + destruct HA as (v & e & ->), HP as (v' & e' & ->). now split.
Qed.

Lemma DefaultInt_on_string_witness :
  DefaultInt Sample.σ0 (mkContainer 2) "port" 80 = Returns 5432%Z
  /\ DefaultInt Sample.σ0 (mkContainer 2) "rate" 80 = Returns 80%Z.
Proof.
  split.
  - apply (proj1 (DefaultInt_on_string Sample.σ0 (mkContainer 2) "port" "5432" 80
                    eq_refl) 5432%Z); [reflexivity | unfold Decimal.in_int64; lia].
  - apply (proj2 (DefaultInt_on_string Sample.σ0 (mkContainer 2) "rate" "1.5" 80
                    eq_refl)).
    intros n Hn. vm_compute in Hn. discriminate Hn.
Defined.

Lemma numeric_getters_return_iff_witness :
  (exists r, Int Sample.σ0 (mkContainer 2) "port" = Returns r)
  /\ Int Sample.σ0 (mkContainer 1) "db" = Panics (InterfaceConversion TMap TString)
  /\ @Float Sample.collaborators Sample.σ0 (mkContainer 1) "db"
     = Panics (InterfaceConversion TMap TString).
Proof.
  pose proof (@numeric_getters_return_iff Sample.collaborators Sample.σ0
                (mkContainer 2) "port") as (HInt & _).
  pose proof (@numeric_getters_return_iff Sample.collaborators Sample.σ0
                (mkContainer 1) "db") as (_ & _ & _ & Hsection).
  destruct (Hsection (VMap 2) eq_refl) as (HI & _ & HF); [discriminate|].
  split; [apply HInt; now exists "5432"|]. split; [exact HI | exact HF].
Defined.

(** ** Writing and reading back *)

(** X4: what [Set] wrote is what the readers of the node give back:
    [String] and [DIY] return the string, [DefaultString] returns it unless
    it is empty (then the default), [Sub] under that key now fails because
    the value is a string and not a section, and the numeric getters return
    the result of their parser instead of panicking. *)
Theorem Set_then_read `{Collaborators} (σ : gmap positive (gmap string value))
    (c : ConfigContainer) (K V : string) :
  let σ' := fst (Set_ σ c K V) in
  String σ' c K = (V, None)
  /\ DIY σ' c K = (VString V, None)
  /\ (forall d, DefaultString σ' c K d = if decide (V = "") then d else V)
  /\ (K <> "" -> Sub σ' c K = (None, Some (ErrNotStructure K)))
  /\ Int σ' c K = Returns (strconv.Atoi V)
  /\ Int64 σ' c K = Returns (strconv.ParseInt V 64)
  /\ Float σ' c K = Returns (ParseFloat V 64).
Proof.
  intros σ'.
  assert (deref σ' (data c) !! K = Some (VString V)) as HK by apply Set_lookup_eq.
  unfold String, DIY, DefaultString, Sub, sub, Int, Int64, Float, String.
  rewrite (index_lookup_Some _ _ _ HK), HK. cbn [obind assert_string].
  split; [reflexivity|]. split; [reflexivity|]. split.
  - intros d. destruct (decide (V = "")) as [->|HV]; [reflexivity|].
    now rewrite bool_decide_eq_false_2.
  - split; [|now split; [|split]].
    intros HKne. now rewrite decide_False.
Qed.

Lemma Set_then_read_witness :
  Sub (fst (Set_ Sample.σ0 (mkContainer 1) "db" "sqlite")) (mkContainer 1) "db"
  = (None, Some (ErrNotStructure "db")).
Proof.
  destruct (@Set_then_read Sample.collaborators Sample.σ0 (mkContainer 1) "db" "sqlite")
    as (_ & _ & _ & Hsub & _).
  apply Hsub. discriminate.
Defined.

(** X5: writes compose as assignments do: the last write to a key wins, and
    writes to different keys, or through containers on different maps,
    commute. *)
Theorem Set_composes (σ : gmap positive (gmap string value))
    (c1 c2 : ConfigContainer) (K1 K2 V1 V2 : string) :
  fst (Set_ (fst (Set_ σ c1 K1 V1)) c1 K1 V2) = fst (Set_ σ c1 K1 V2)
  /\ (data c1 <> data c2 \/ K1 <> K2 ->
      fst (Set_ (fst (Set_ σ c1 K1 V1)) c2 K2 V2)
      = fst (Set_ (fst (Set_ σ c2 K2 V2)) c1 K1 V1)).
Proof.
  split.
  - simpl. rewrite deref_insert_eq, insert_insert_eq, insert_insert_eq.
    reflexivity.
  - intros Hfar. simpl.
    destruct (decide (data c1 = data c2)) as [Heq|Hne].
    + rewrite <- Heq. rewrite !deref_insert_eq, !insert_insert_eq.
      f_equal. apply insert_insert_ne. destruct Hfar; congruence.
    + rewrite (deref_insert_ne _ (data c1) (data c2)) by exact Hne.
      rewrite (deref_insert_ne _ (data c2) (data c1)) by congruence.
      apply insert_insert_ne. congruence.
Qed.

Lemma Set_composes_witness :
  fst (Set_ (fst (Set_ Sample.σ0 (mkContainer 1) "name" "a")) (mkContainer 2) "port" "1")
  = fst (Set_ (fst (Set_ Sample.σ0 (mkContainer 2) "port" "1")) (mkContainer 1) "name" "a").
Proof.
  apply (proj2 (Set_composes Sample.σ0 (mkContainer 1) (mkContainer 2)
                  "name" "port" "a" "1")).
  left. discriminate.
Defined.

(** ** Narrowing and raw reads *)

(** X6: narrowing composes along a path: when the node holds a section
    under [K1] and that section holds a section under [K2], [Sub(K1)] and
    then [Sub(K2)] give a container on the inner section, through which
    [DIY] reads the raw values of the inner section. *)
Theorem Sub_Sub (σ : gmap positive (gmap string value))
    (c : ConfigContainer) (K1 K2 : string) (m1 m2 : positive) :
  K1 <> "" -> K2 <> "" ->
  deref σ (data c) !! K1 = Some (VMap m1) ->
  deref σ m1 !! K2 = Some (VMap m2) ->
  exists c1 c2,
    Sub σ c K1 = (Some c1, None)
    /\ Sub σ c1 K2 = (Some c2, None)
    /\ data c2 = m2
    /\ forall K v, deref σ m2 !! K = Some v -> DIY σ c2 K = (v, None).
Proof.
  intros HK1 HK2 H1 H2. exists (mkContainer m1), (mkContainer m2).
  unfold Sub, sub, DIY. rewrite !decide_False by assumption.
  simpl. rewrite H1, H2.
  split; [reflexivity|]. split; [reflexivity|]. split; [reflexivity|].
  intros K v ->. reflexivity.
Qed.

(** X7: [DIY] fails exactly when the key is absent.  A key that is present
    with the nil value is returned by [DIY] without an error, while [Bool]
    reports that key as not existing. *)
Theorem DIY_fails_iff_absent (σ : gmap positive (gmap string value))
    (c : ConfigContainer) (K : string) :
  (snd (DIY σ c K) <> None <-> deref σ (data c) !! K = None)
  /\ (forall v, deref σ (data c) !! K = Some v -> DIY σ c K = (v, None))
  /\ (deref σ (data c) !! K = Some VNil ->
      DIY σ c K = (VNil, None)
      /\ Bool σ c K = (false, Some (ErrNotExistKey K))).
Proof.
  unfold DIY, Bool, index. split; [|split].
  - destruct (deref σ (data c) !! K); simpl; split; congruence.
  - now intros v ->.
  - now intros ->.
Qed.

Lemma Sub_Sub_witness :
  exists c2,
    Sub Sample2.σ_path (mkContainer 2) "b" = (Some c2, None)
    /\ DIY Sample2.σ_path c2 "c" = (VString "1", None).
Proof.
  destruct (Sub_Sub Sample2.σ_path (mkContainer 1) "a" "b" 2 3)
    as (c1 & c2 & H1 & H2 & _ & Hread);
    [discriminate | discriminate | reflexivity | reflexivity |].
  exists c2. vm_compute in H1. injection H1 as <-.
  split; [exact H2 | apply Hread; reflexivity].
Defined.

Lemma DIY_fails_iff_absent_witness :
  DIY Sample2.σ_nil (mkContainer 1) "n" = (VNil, None)
  /\ Bool Sample2.σ_nil (mkContainer 1) "n" = (false, Some (ErrNotExistKey "n"))
  /\ snd (DIY Sample2.σ_nil (mkContainer 1) "missing") <> None.
Proof.
  pose proof (DIY_fails_iff_absent Sample2.σ_nil (mkContainer 1) "n") as (_ & _ & Hnil).
  pose proof (DIY_fails_iff_absent Sample2.σ_nil (mkContainer 1) "missing") as (Habs & _).
  destruct (Hnil eq_refl) as [HD HB].
  split; [exact HD|]. split; [exact HB|]. apply Habs. reflexivity.
Defined.

(** ** Loading *)

(** X8: [ParseData] returns a handle or an error and never both or neither;
    when the conversion of the document fails, it returns that very error,
    the nil handle, and the store as the conversion left it, without
    looking for the config key. *)
Theorem ParseData_handle_or_error `{Collaborators} (bytes : string)
    (σ : gmap positive (gmap string value)) :
  ((exists c, snd (ParseData bytes σ) = (Some c, None))
   \/ (exists e, snd (ParseData bytes σ) = (None, Some e)))
  /\ (forall σ1 d e,
        DocToMap bytes (fst (make_map σ)) = (σ1, (d, Some e)) ->
        ParseData bytes σ = (σ1, (None, Some e))).
Proof.
  unfold ParseData. destruct (make_map σ) as [σ' x_data]. simpl.
  split.
  - destruct (DocToMap bytes σ') as [σ1 [d [e|]]]; [right; now eexists|].
    destruct (index (deref_nilable σ1 d) "config") as [| s | confVal | vs];
      try (right; now eexists).
    destruct (ExpandValueEnvForMap confVal σ1). left. now eexists.
  - intros σ1 d e ->. reflexivity.
Qed.

Lemma ParseData_handle_or_error_witness :
  exists σ1 e, @ParseData Sample.collaborators "<config>" ∅ = (σ1, (None, Some e)).
Proof.
  eexists _, _.
  eapply (proj2 (@ParseData_handle_or_error Sample.collaborators "<config>" ∅)).
  vm_compute. reflexivity.
Defined.

(** X9: [Parse] reads the file and hands its content to [ParseData].  When
    the read fails it returns the read error and the nil handle and leaves
    the store untouched; otherwise its results and store are those of
    [ParseData] on the content.  It too returns a handle or an error, never
    both or neither. *)
Theorem Parse_reads_then_parses `{Collaborators} `{OS} (filename : string)
    (fs : filesystem) (σ : gmap positive (gmap string value)) :
  (forall fs' content e,
      ReadFile filename fs = (fs', (content, Some e)) ->
      Parse filename fs σ = (fs', σ, (None, Some e)))
  /\ (forall fs' content,
        ReadFile filename fs = (fs', (content, None)) ->
        Parse filename fs σ
        = (fs', fst (ParseData content σ), snd (ParseData content σ)))
  /\ ((exists c, snd (Parse filename fs σ) = (Some c, None))
      \/ (exists e, snd (Parse filename fs σ) = (None, Some e))).
Proof.
  unfold Parse. split; [|split].
  - intros fs' content e ->. reflexivity.
  - intros fs' content ->. now destruct (ParseData content σ).
  - destruct (ReadFile filename fs) as [fs' [content [e|]]]; [right; now eexists|].
    destruct (proj1 (ParseData_handle_or_error content σ)) as [[c Hc]|[e He]];
      destruct (ParseData content σ) as [σ1 r]; simpl in *; subst r;
      [left|right]; now eexists.
Qed.

Lemma Parse_reads_then_parses_witness :
  @Parse Sample.collaborators Sample.os "missing.xml" ∅ Sample.σ0
  = (∅, Sample.σ0, (None, Some (ErrExternal "no such file or directory")))
  /\ exists σ1 c,
       @Parse Sample.collaborators Sample.os "app.xml"
         {["app.xml" := Sample.doc_flat]} ∅
       = ({["app.xml" := Sample.doc_flat]}, σ1, (Some c, None))
       /\ String σ1 c "a" = ("1", None).
Proof.
  split.
  - apply (proj1 (@Parse_reads_then_parses Sample.collaborators Sample.os
                    "missing.xml" ∅ Sample.σ0) ∅ "").
    reflexivity.
  - eexists _, _. split.
    + etransitivity;
        [ apply (proj1 (proj2 (@Parse_reads_then_parses Sample.collaborators
                                  Sample.os "app.xml"
                                  {["app.xml" := Sample.doc_flat]} ∅))
                   {["app.xml" := Sample.doc_flat]} Sample.doc_flat);
          vm_compute; reflexivity
        | vm_compute; reflexivity ].
    + vm_compute. reflexivity.
Defined.

(** ** Sections as string maps *)

Lemma GetSection_fold (ToString : value -> string) (m : gmap string value) :
  map_fold (fun k val (mapstr : gmap string string) => <[k := ToString val]> mapstr)
    ∅ m = ToString <$> m.
Proof.
  apply (map_fold_weak_ind (fun r m => r = ToString <$> m)).
  - now rewrite fmap_empty.
  - intros k v m' r Hk ->. now rewrite fmap_insert.
Qed.

(** X10: [GetSection] succeeds exactly on a key that holds a section.  The
    map it returns has the keys of the section and no others, each with the
    rendering that [config.ToString] gives of the value; for an absent key
    and for a value that is not a section it returns the nil map and the
    error section not found. *)
Theorem GetSection_entries (ToString : value -> string)
    (σ : gmap positive (gmap string value)) (c : ConfigContainer)
    (section : string) :
  (forall v, deref σ (data c) !! section = Some (VMap v) ->
     exists mapstr,
       GetSection ToString σ c section = (Some mapstr, None)
       /\ dom mapstr = dom (deref σ v)
       /\ forall k, mapstr !! k = ToString <$> (deref σ v !! k))
  /\ (deref σ (data c) !! section = None ->
      GetSection ToString σ c section = (None, Some (ErrSectionNotFound section)))
  /\ (forall x, deref σ (data c) !! section = Some x -> dyntype x <> TMap ->
      GetSection ToString σ c section = (None, Some (ErrSectionNotFound section))).
Proof.
  unfold GetSection. split; [|split].
  - intros v Hv. rewrite (index_lookup_Some _ _ _ Hv), GetSection_fold.
    eexists. split; [reflexivity|]. split.
    + apply dom_fmap_L.
    + intros k. apply lookup_fmap.
  - intros Hnone. now rewrite (index_lookup_None _ _ Hnone).
  - intros x Hx Hty. rewrite (index_lookup_Some _ _ _ Hx).
    destruct x; simpl in Hty; congruence.
Qed.

Lemma GetSection_entries_witness :
  (exists mapstr,
      GetSection Sample2.render Sample.σ0 (mkContainer 1) "db" = (Some mapstr, None)
      /\ mapstr !! "port" = Some "5432")
  /\ GetSection Sample2.render Sample.σ0 (mkContainer 1) "name"
     = (None, Some (ErrSectionNotFound "name")).
Proof.
  pose proof (GetSection_entries Sample2.render Sample.σ0 (mkContainer 1) "db")
    as (Hsection & _).
  pose proof (GetSection_entries Sample2.render Sample.σ0 (mkContainer 1) "name")
    as (_ & _ & Hscalar).
  split.
  - destruct (Hsection 2%positive eq_refl) as (mapstr & Hget & _ & Hentries).
    exists mapstr. split; [exact Hget|]. rewrite Hentries. reflexivity.
  - apply (Hscalar (VString "beego")); [reflexivity | discriminate].
Defined.

(** ** Splitting a stored list *)
Section Splitting.
Local Open Scope Z_scope.

Variable sep : string.
Hypothesis sep_nonempty : sep <> "".

Lemma app_cons (a : ascii) (s t : string) :
  (String.String a s ++ t = String.String a (s ++ t))%string.
Proof. reflexivity. Qed.

Lemma app_nil_l (t : string) : ("" ++ t = t)%string.
Proof. reflexivity. Qed.

Lemma Index_nil : strings.Index "" sep = if String.prefix sep "" then 0 else -1.
Proof. reflexivity. Qed.

Lemma Index_cons (a : ascii) (s : string) :
  strings.Index (String.String a s) sep
  = if String.prefix sep (String.String a s) then 0
    else if strings.Index s sep <? 0 then -1 else strings.Index s sep + 1.
Proof. reflexivity. Qed.

Lemma prefix_inv (s : string) :
  String.prefix sep s = true -> exists t, s = sep ++ t.
Proof.
  clear sep_nonempty. revert s.
  induction sep as [|a sep' IH]; intros s Hp; [now exists s|].
  destruct s as [|b s]; [discriminate|]. simpl in Hp.
  destruct (ascii_dec a b) as [->|]; [|discriminate].
  destruct (IH s Hp) as [t ->]. now exists t.
Qed.

Lemma prefix_app (t : string) : String.prefix sep (sep ++ t) = true.
Proof.
  clear sep_nonempty.
  induction sep as [|a sep' IH]; [rewrite app_nil_l; now destruct t|].
  rewrite app_cons. simpl.
  destruct (ascii_dec a a); [exact IH|congruence].
Qed.

Lemma append_assoc (a b c : string) : ((a ++ b) ++ c = a ++ (b ++ c))%string.
Proof.
  induction a as [|x a IH]; [reflexivity|]. now rewrite !app_cons, IH.
Qed.

Lemma length_append (a b : string) :
  String.length (a ++ b) = (String.length a + String.length b)%nat.
Proof.
  induction a as [|x a IH]; [reflexivity|].
  rewrite app_cons. cbn [String.length]. now rewrite IH.
Qed.

Lemma prefix_app_r (x y : string) :
  String.prefix sep x = true -> String.prefix sep (x ++ y) = true.
Proof.
  intros Hp. destruct (prefix_inv x Hp) as [t ->].
  rewrite append_assoc. apply prefix_app.
Qed.

Lemma Index_empty : strings.Index "" sep = -1.
Proof. destruct sep; [congruence|reflexivity]. Qed.

Lemma Index_ge (s : string) : -1 <= strings.Index s sep.
Proof.
  induction s as [|a s IH].
  - rewrite Index_nil. destruct (String.prefix sep ""); lia.
  - rewrite Index_cons.
    destruct (String.prefix sep (String.String a s)); [lia|].
    destruct (strings.Index s sep <? 0) eqn:Hi; lia.
Qed.

(** Where [Index] finds the separator, the string is a part without the
    separator, the separator, and a rest. *)
Lemma Index_found (s : string) :
  0 <= strings.Index s sep ->
  exists s1 s2,
    s = (s1 ++ sep ++ s2)%string
    /\ Z.of_nat (String.length s1) = strings.Index s sep
    /\ strings.Index s1 sep = -1.
Proof.
  induction s as [|a s IH].
  - rewrite Index_empty. lia.
  - rewrite Index_cons.
    destruct (String.prefix sep (String.String a s)) eqn:Hp.
    + intros _. destruct (prefix_inv _ Hp) as [t Ht].
      exists "", t. split; [exact Ht|]. split; [reflexivity|apply Index_empty].
    + destruct (strings.Index s sep <? 0) eqn:Hi; [lia|].
      intros _. destruct IH as (s1 & s2 & Hs & Hlen & Hnone); [lia|].
      exists (String.String a s1), s2. split; [now rewrite app_cons, <- Hs|].
      split; [cbn [String.length]; rewrite Nat2Z.inj_succ; lia|].
      rewrite Index_cons, Hnone.
      destruct (String.prefix sep (String.String a s1)) eqn:Hp1; [|reflexivity].
      apply (prefix_app_r _ (sep ++ s2)) in Hp1.
      rewrite app_cons, <- Hs in Hp1. congruence.
Qed.

Lemma slice_to_app (s1 t : string) :
  strings.slice_to (s1 ++ t) (Z.of_nat (String.length s1)) = s1.
Proof.
  unfold strings.slice_to. rewrite Nat2Z.id.
  induction s1 as [|a s1 IH]; [rewrite app_nil_l; now destruct t|].
  rewrite app_cons. cbn [String.length String.substring]. now rewrite IH.
Qed.

Lemma substring_all (t : string) : String.substring 0 (String.length t) t = t.
Proof. induction t as [|a t IH]; simpl; [reflexivity|now rewrite IH]. Qed.

Lemma slice_from_app (s1 t : string) :
  strings.slice_from (s1 ++ t) (Z.of_nat (String.length s1)) = t.
Proof.
  unfold strings.slice_from. rewrite Nat2Z.id, length_append.
  replace (String.length s1 + String.length t - String.length s1)%nat
    with (String.length t) by lia.
  induction s1 as [|a s1 IH]; [apply substring_all|].
  rewrite app_cons. cbn [String.length String.substring]. exact IH.
Qed.

(** One turn of the loop of [genSplit], on a string that holds the
    separator. *)
Lemma genSplit_loop_step (left : nat) (s s1 s2 : string) :
  s = (s1 ++ sep ++ s2)%string ->
  Z.of_nat (String.length s1) = strings.Index s sep ->
  strings.genSplit_loop (S left) s sep 0
  = s1 :: strings.genSplit_loop left s2 sep 0.
Proof.
  intros Hs Hlen. simpl. rewrite <- Hlen.
  assert ((Z.of_nat (String.length s1) <? 0) = false) as -> by lia.
  rewrite Z.add_0_r. f_equal.
  - rewrite Hs. apply slice_to_app.
  - f_equal. unfold strconv.len. rewrite <- Nat2Z.inj_add, <- length_append.
    rewrite Hs, <- append_assoc. apply slice_from_app.
Qed.

Lemma genSplit_loop_none (left : nat) (s : string) :
  strings.Index s sep = -1 -> strings.genSplit_loop left s sep 0 = [s].
Proof. intros Hi. destruct left; simpl; [reflexivity|now rewrite Hi]. Qed.

Lemma genSplit_loop_nonempty (left : nat) (s : string) :
  strings.genSplit_loop left s sep 0 <> [].
Proof.
  destruct left; simpl; [discriminate|].
  destruct (strings.Index s sep <? 0); discriminate.
Qed.

Lemma Join_cons (p : string) (ps : list string) :
  ps <> [] -> Join (p :: ps) sep = (p ++ sep ++ Join ps sep)%string.
Proof. destruct ps; [congruence|reflexivity]. Qed.

Lemma genSplit_loop_Join (left : nat) : forall s,
  Join (strings.genSplit_loop left s sep 0) sep = s.
Proof.
  induction left as [|left IH]; intros s; [reflexivity|].
  destruct (Z_lt_ge_dec (strings.Index s sep) 0) as [Hneg|Hpos].
  - rewrite genSplit_loop_none; [reflexivity|]. pose proof (Index_ge s). lia.
  - destruct (Index_found s ltac:(lia)) as (s1 & s2 & Hs & Hlen & _).
    rewrite (genSplit_loop_step left s s1 s2 Hs Hlen).
    rewrite Join_cons by apply genSplit_loop_nonempty.
    now rewrite IH.
Qed.

(** With as many turns as the string has bytes the loop ends because no
    separator is left, and no piece holds the separator. *)
Lemma genSplit_loop_pieces (left : nat) : forall s,
  (String.length s <= left)%nat ->
  Forall (fun p => strings.Index p sep = -1) (strings.genSplit_loop left s sep 0).
Proof.
  induction left as [|left IH]; intros s Hlen.
  - destruct s; [|simpl in Hlen; lia]. repeat constructor. apply Index_empty.
  - destruct (Z_lt_ge_dec (strings.Index s sep) 0) as [Hneg|Hpos].
    + assert (strings.Index s sep = -1) as Hi by (pose proof (Index_ge s); lia).
      rewrite genSplit_loop_none by exact Hi. now repeat constructor.
    + destruct (Index_found s ltac:(lia)) as (s1 & s2 & Hs & Hl & Hnone).
      rewrite (genSplit_loop_step left s s1 s2 Hs Hl).
      constructor; [exact Hnone|]. apply IH.
      rewrite Hs, !length_append in Hlen.
      assert (0 < String.length sep)%nat by (destruct sep; [congruence|simpl; lia]).
      lia.
Qed.

Lemma genSplit_loop_length (left : nat) : forall s,
  (length (strings.genSplit_loop left s sep 0) <= S left)%nat.
Proof.
  induction left as [|left IH]; intros s; simpl; [lia|].
  destruct (strings.Index s sep <? 0); simpl; [lia|].
  specialize (IH (strings.slice_from s (strings.Index s sep + strconv.len sep))).
  lia.
Qed.

(** [Count] counts the turns that the loop of [genSplit] can make. *)
Lemma Count_loop_pieces (turns : nat) : forall s n,
  strings.Count_loop turns s sep n
  = n + Z.of_nat (length (strings.genSplit_loop turns s sep 0)) - 1.
Proof.
  induction turns as [|turns IH]; intros s n; simpl; [lia|].
  pose proof (Index_ge s) as Hge.
  destruct (strings.Index s sep =? -1) eqn:Heq.
  - assert ((strings.Index s sep <? 0) = true) as -> by lia. simpl. lia.
  - assert ((strings.Index s sep <? 0) = false) as -> by lia.
    rewrite IH. cbn [length]. lia.
Qed.

(** Turns beyond those the loop makes change nothing. *)
Lemma genSplit_loop_enough (left : nat) : forall s left',
  (String.length s <= left)%nat ->
  (length (strings.genSplit_loop left s sep 0) <= S left')%nat ->
  strings.genSplit_loop left' s sep 0 = strings.genSplit_loop left s sep 0.
Proof.
  induction left as [|left IH]; intros s left' Hlen Hturns.
  - destruct s; [|simpl in Hlen; lia].
    rewrite !genSplit_loop_none by apply Index_empty. reflexivity.
  - destruct (Z_lt_ge_dec (strings.Index s sep) 0) as [Hneg|Hpos].
    + assert (strings.Index s sep = -1) as Hi by (pose proof (Index_ge s); lia).
      now rewrite !genSplit_loop_none by exact Hi.
    + destruct (Index_found s ltac:(lia)) as (s1 & s2 & Hs & Hl & _).
      rewrite (genSplit_loop_step left s s1 s2 Hs Hl) in *.
      pose proof (genSplit_loop_nonempty left s2) as Hne.
      destruct left' as [|left'].
      { cbn [length] in Hturns.
        destruct (strings.genSplit_loop left s2 sep 0); [congruence|].
        cbn [length] in Hturns. lia. }
      rewrite (genSplit_loop_step left' s s1 s2 Hs Hl). f_equal.
      apply IH; [|cbn [length] in Hturns; lia].
      rewrite Hs, !length_append in Hlen.
      assert (0 < String.length sep)%nat by (destruct sep; [congruence|simpl; lia]).
      lia.
Qed.

(** [Split] makes all the turns there are. *)
Lemma Split_all_turns (s : string) :
  strings.Split s sep = Some (strings.genSplit_loop (String.length s) s sep 0).
Proof.
  unfold strings.Split, strings.genSplit.
  change (-1 =? 0) with false. cbn match.
  rewrite decide_False by exact sep_nonempty.
  change (-1 <? 0) with true. cbn match.
  unfold strings.Count. rewrite Count_loop_pieces.
  pose proof (genSplit_loop_length (String.length s) s) as Hlen.
  pose proof (genSplit_loop_nonempty (String.length s) s) as Hne.
  set (k := length (strings.genSplit_loop (String.length s) s sep 0)) in *.
  assert (0 < k)%nat.
  { subst k. destruct (strings.genSplit_loop (String.length s) s sep 0);
      [congruence|simpl; lia]. }
  unfold strconv.len.
  assert ((0 + Z.of_nat k - 1 + 1 >? Z.of_nat (String.length s) + 1) = false)
    as -> by lia.
  f_equal. apply genSplit_loop_enough; [lia|].
  fold k. lia.
Qed.

End Splitting.

Lemma semicolon_nonempty : ";" <> "".
Proof. discriminate. Qed.

Lemma Index_semicolon_none (s : string) :
  strings.Index s ";" = (-1)%Z <-> ~ In ";"%char (list_ascii_of_string s).
Proof.
  induction s as [|a s IH]; [split; [intros _ []|reflexivity]|].
  rewrite (Index_cons ";"). cbn [list_ascii_of_string In String.prefix].
  pose proof (Index_ge ";" s) as Hge.
  destruct (ascii_dec ";" a) as [Heq|Hne].
  - destruct s; split; try discriminate; intros Hnot; exfalso; apply Hnot; now left.
  - destruct (strings.Index s ";" <? 0)%Z eqn:Hi.
    + split; [|reflexivity]. intros _ [Hin|Hin]; [congruence|].
      apply IH in Hin; [exact Hin|lia].
    + split; [lia|]. intros Hnot. exfalso.
      assert (strings.Index s ";" <> (-1)%Z) as Hfound by lia.
      apply Hfound, IH. intros Hin. apply Hnot. now right.
Qed.

(** X11: on a key that holds a string that is not empty, [Strings] returns
    a slice that is not nil and has a piece at least; joining the pieces
    with ";" gives the stored string back, no piece holds a ";", and a
    stored string without ";" is returned as the one piece. *)
Theorem Strings_pieces (σ : gmap positive (gmap string value))
    (c : ConfigContainer) (K V : string) :
  deref σ (data c) !! K = Some (VString V) -> V <> "" ->
  exists pieces,
    Strings σ c K = (Some pieces, None)
    /\ pieces <> []
    /\ Join pieces ";" = V
    /\ Forall (fun p => ~ In ";"%char (list_ascii_of_string p)) pieces
    /\ (~ In ";"%char (list_ascii_of_string V) -> pieces = [V]).
Proof.
  intros HK HV. unfold Strings, String.
  rewrite (index_lookup_Some _ _ _ HK).
  rewrite bool_decide_eq_false_2 by exact HV.
  match goal with
  | |- context [bool_decide ?P] => rewrite (bool_decide_eq_false_2 P) by congruence
  end.
  cbn [orb].
  rewrite (Split_all_turns ";" semicolon_nonempty).
  eexists. split; [reflexivity|].
  split; [apply genSplit_loop_nonempty|].
  split; [apply genSplit_loop_Join, semicolon_nonempty|].
  split.
  - eapply Forall_impl;
      [apply genSplit_loop_pieces; [exact semicolon_nonempty|reflexivity]|].
    intros p Hp. now apply Index_semicolon_none.
  - intros Hnone. apply genSplit_loop_none. now apply Index_semicolon_none.
Qed.

Lemma Strings_pieces_witness :
  exists pieces,
    Strings Sample.σ0 (mkContainer 1) "list" = (Some pieces, None)
    /\ Join pieces ";" = "a;b;c".
Proof.
  destruct (Strings_pieces Sample.σ0 (mkContainer 1) "list" "a;b;c" eq_refl)
    as (pieces & HS & _ & HJ & _); [discriminate|].
  exists pieces. split; [exact HS | exact HJ].
Defined.

(** X12: [DefaultStrings] gives the default exactly when [String] yields
    the empty string (the key is absent, holds no string, or holds the empty
    one); on a stored string that is not empty it gives the pieces of
    [Strings], whatever the default. *)
Theorem DefaultStrings_cases (σ : gmap positive (gmap string value))
    (c : ConfigContainer) (K : string) (d : option (list string)) :
  (fst (String σ c K) = "" -> DefaultStrings σ c K d = d)
  /\ (forall V, deref σ (data c) !! K = Some (VString V) -> V <> "" ->
        exists pieces,
          Strings σ c K = (Some pieces, None)
          /\ DefaultStrings σ c K d = Some pieces).
Proof.
  split.
  - unfold DefaultStrings, Strings.
    destruct (String σ c K) as [v err]. simpl. intros ->. reflexivity.
  - intros V HK HV.
    destruct (Strings_pieces σ c K V HK HV) as (pieces & HS & _).
    exists pieces. split; [exact HS|]. unfold DefaultStrings. rewrite HS.
    reflexivity.
Qed.

Lemma DefaultStrings_cases_witness :
  DefaultStrings Sample.σ0 (mkContainer 1) "missing" (Some ["x"]) = Some ["x"]
  /\ DefaultStrings Sample.σ0 (mkContainer 1) "db" None = None
  /\ exists pieces,
       DefaultStrings Sample.σ0 (mkContainer 1) "list" (Some ["x"]) = Some pieces
       /\ Join pieces ";" = "a;b;c".
Proof.
  split; [|split].
  - apply (proj1 (DefaultStrings_cases Sample.σ0 (mkContainer 1) "missing" (Some ["x"]))).
    reflexivity.
  - apply (proj1 (DefaultStrings_cases Sample.σ0 (mkContainer 1) "db" None)).
    reflexivity.
  - destruct (proj2 (DefaultStrings_cases Sample.σ0 (mkContainer 1) "list" (Some ["x"]))
                "a;b;c" eq_refl) as (pieces & HS & HD); [discriminate|].
    exists pieces. split; [exact HD|].
    vm_compute in HS. injection HS as <-. reflexivity.
Defined.
